(** * Progress tracking of git network operations

    A shallow embedding of two modules of the application:

    - [lib/git/fetch.ts]: the argument builder [getFetchArgs], the
      operations [fetch] and [fetchRefspec], and the parser of the combined
      output of the fast-forward batch, [fastForwardBranches];
    - the cloning store: the class [CloningRepository], the module-level
      counter [CloningRepositoryID] and the class [CloningRepositoriesStore].

    JavaScript strings are modelled as [string]; every separator the code
    looks for is a 7-bit character, so working on bytes or on UTF-16 code
    units makes no difference.  Numbers that are only stored and forwarded
    (percentages) are binary64 floats, as in JavaScript; the identifiers of
    the cloning store are integers counted up from 1 and are modelled in [Z].
    [Map] objects are finite maps ([gmap]); arrays are lists. *)

From Stdlib Require Import PrimFloat ZArith Ascii Sorted.
From stdpp Require Import gmap strings list.

Local Open Scope Z_scope.

(** ** The JavaScript built-ins the code relies on *)
Module JS.

(** [s.startsWith(p)] *)
Definition startsWith (s p : string) : bool := String.prefix p s.

(** [s.indexOf(sep)]: the position of the first occurrence, or -1. *)
Fixpoint indexOf (s sep : string) : Z :=
  if String.prefix sep s then 0
  else match s with
       | EmptyString => -1
       | String _ s' => let i := indexOf s' sep in
                        if i <? 0 then -1 else i + 1
       end.

(** [s.split(sep)] for a separator that is not empty: the pieces between
    the successive occurrences of [sep], found from left to right without
    overlap.  [skip] counts the characters of a separator still to be
    passed over.  The result is never empty; its head is the piece being
    read. *)
Fixpoint split_from (sep : string) (skip : nat) (s : string) : list string :=
  match s with
  | EmptyString => [ "" ]
  | String c s' =>
      match skip with
      | S k => split_from sep k s'
      | O =>
          if String.prefix sep s
          then "" :: split_from sep (String.length sep - 1) s'
          else match split_from sep 0 s' with
               | piece :: pieces => String c piece :: pieces
               | [] => [ String c "" ]
               end
      end
  end.

Definition split (s sep : string) : list string := split_from sep 0 s.

(** [a.splice(0, 1)], seen as the array left behind. *)
Definition splice_first {A} (a : list A) : list A := tail a.

(** [a.splice(-1, 1)], seen as the array left behind: nothing happens to
    an empty array. *)
Definition splice_last {A} (a : list A) : list A := removelast a.

(** [a.findIndex(p)]: the first index whose element satisfies [p], or -1. *)
Fixpoint findIndex {A} (p : A -> bool) (a : list A) : Z :=
  match a with
  | [] => -1
  | x :: a' => if p x then 0
               else let i := findIndex p a' in
                    if i <? 0 then -1 else i + 1
  end.

(** [a.splice(i, 1)] for an index [i >= 0], seen as the array left
    behind. *)
Definition splice_at {A} (i : Z) (a : list A) : list A :=
  delete (Z.to_nat i) a.

End JS.

(** ** The models the two modules import *)

(** [models/branch]: the two fields [fastForwardBranches] reads. *)
Module Branch.
Record t : Type := mk { name : string; upstream : string }.
End Branch.

(** [models/remote] *)
Module IRemote.
Record t : Type := mk { name : string; url : string }.
End IRemote.

(** [models/repository]: only [path] is read here. *)
Module Repository.
Record t : Type := mk { path : string }.
End Repository.

(** ** Promises and observable effects

    An asynchronous function is modelled by what can be observed of one
    call: the effects it had, in order, and how its promise settled. *)
Module Async.

Inductive Error : Type :=
| ExternalProcessError (exitCode : Z)
| CollaboratorError (message : string).

Inductive Promise (A : Type) : Type :=
| Resolved (a : A)
| Rejected (e : Error).
Arguments Resolved {A} a.
Arguments Rejected {A} e.

Section Run.
Context {Event : Type}.

(** The effects of a run, oldest first, and its outcome. *)
Definition t (A : Type) : Type := list Event * Promise A.

Definition ret {A} (a : A) : t A := ([], Resolved a).

(** [await]: a rejection ends the run, with the effects had so far. *)
Definition bind {A B} (m : t A) (k : A -> t B) : t B :=
  match m with
  | (tr, Resolved a) => let '(tr', r) := k a in (tr ++ tr', r)
  | (tr, Rejected e) => (tr, Rejected e)
  end.

(** Awaiting the promise of a collaborator. *)
Definition await {A} (p : Promise A) : t A := ([], p).

Definition emit (e : Event) : t unit := ([ e ], Resolved tt).

(** A [for] loop over [xs] that awaits [body] at each element. *)
Fixpoint for_each {A} (body : A -> t unit) (xs : list A) : t unit :=
  match xs with
  | [] => ret tt
  | x :: xs' => bind (body x) (fun _ => for_each body xs')
  end.
End Run.
Arguments t : clear implicits.

End Async.

#[export] Instance async_ret {Event} : MRet (Async.t Event) :=
  fun A => Async.ret.
#[export] Instance async_bind {Event} : MBind (Async.t Event) :=
  fun A B k m => Async.bind m k.

(** ** [lib/git/fetch.ts] *)
Module Fetch.
Import Async.

(** *** The progress events *)

(** The items a progress parser hands to the handler installed by
    [executionOptionsWithProgress]: either a recognised progress line
    ([kind === 'progress'], whose text is [details.text]) or any other
    line of output ([kind === 'context']). *)
Inductive GitProgress : Type :=
| progress (percent : float) (details_text : string)
| context (percent : float) (text : string).

Definition percent (p : GitProgress) : float :=
  match p with progress v _ => v | context v _ => v end.

(** [IFetchProgress]; [description] is absent from the initial event. *)
Record IFetchProgress : Type := mkFetchProgress {
  kind : string;
  title : string;
  description : option string;
  value : float;
  remote : string;
}.

(** What a call can be seen to do: invoke the caller's
    [progressCallback] with an argument, and start the external
    process. *)
Inductive Event : Type :=
| Called (p : IFetchProgress)
| Spawned (args : list string) (path : string) (name : string).

(** [IGitExecutionOptions].  [processCallback] is the handler the
    progress items of the process are fed to, when there is one. *)
Record IGitExecutionOptions : Type := mkOptions {
  successExitCodes : gset Z;
  env : list (string * string);
  trackLFSProgress : bool;
  processCallback : option (GitProgress -> Async.t Event unit);
}.

(** What one run of the external process does: the progress items read
    from its diagnostic stream, its exit code and its combined output. *)
Record Process : Type := mkProcess {
  items : list GitProgress;
  exitCode : Z;
  combinedOutput : string;
}.

Section Fetch.
(** [models/git-account] *)
Context {IGitAccount : Type}.

(** The collaborators [fetch.ts] imports, whose code is in other
    modules: the promises they return and what the external process
    does for given arguments and working directory. *)
Record Collaborators : Type := mkCollaborators {
  gitNetworkArguments :
    Repository.t -> option IGitAccount -> Promise (list string);
  envForRemoteOperation :
    option IGitAccount -> string -> Promise (list (string * string));
  enableRecurseSubmodulesFlag : bool;
  progressSetup : Promise unit;
  spawn : list string -> string -> Process;
}.

Variable W : Collaborators.

(** Modelled from the spec: [git] of [./core] is not among the
    sources.  The runner starts the external command for the argument
    list and working directory, feeds each item of its diagnostic
    stream to the handler exactly once and in arrival order, and
    resolves after the exit, failing with [ExternalProcessError] when
    the exit code is not in the declared set. *)
Definition git (args : list string) (path : string) (name : string)
    (opts : IGitExecutionOptions) : Async.t Event Process :=
  let result := spawn W args path in
  _ ← emit (Spawned args path name);
  _ ← match processCallback opts with
      | Some handler => for_each handler (items result)
      | None => mret tt
      end;
  if bool_decide (exitCode result ∈ successExitCodes opts)
  then mret result
  else await (Rejected (ExternalProcessError (exitCode result))).

(** Modelled from the spec: [executionOptionsWithProgress] of
    [../progress] is not among the sources.  Once its own setup has
    resolved it returns the options with the handler installed on the
    diagnostic stream (the parser argument is part of the stream
    here: [items] are parsed lines). *)
Definition executionOptionsWithProgress (opts : IGitExecutionOptions)
    (progressCallback : GitProgress -> Async.t Event unit)
    : Async.t Event IGitExecutionOptions :=
  _ ← await (progressSetup W);
  mret (mkOptions (successExitCodes opts) (env opts)
          (trackLFSProgress opts) (Some progressCallback)).

(** [getFetchArgs]; [progressCallback] tells whether a callback was
    passed ([progressCallback != null]). *)
Definition getFetchArgs (repository : Repository.t) (remote : string)
    (account : option IGitAccount) (progressCallback : bool)
    : Async.t Event (list string) :=
  networkArguments ← await (gitNetworkArguments W repository account);
  if enableRecurseSubmodulesFlag W then
    mret (if progressCallback
          then networkArguments ++
                 [ "fetch"; "--progress"; "--prune";
                   "--recurse-submodules=on-demand"; remote ]
          else networkArguments ++
                 [ "fetch"; "--prune";
                   "--recurse-submodules=on-demand"; remote ])
  else
    mret (if progressCallback
          then networkArguments ++
                 [ "fetch"; "--progress"; "--prune"; remote ]
          else networkArguments ++ [ "fetch"; "--prune"; remote ]).

(** The arrow function [fetch] passes to
    [executionOptionsWithProgress]. *)
Definition fetchProgressHandler (remote : IRemote.t) (p : GitProgress)
    : Async.t Event unit :=
  let title := "Fetching " +:+ IRemote.name remote in
  let kind := "fetch" in
  let punt :=
    match p with
    | context _ text =>
        negb (JS.startsWith text "remote: Counting objects")
    | progress _ _ => false
    end in
  if punt then mret tt
  else
    let description :=
      match p with
      | progress _ details_text => details_text
      | context _ text => text
      end in
    let value := percent p in
    emit (Called (mkFetchProgress kind title (Some description) value
                    (IRemote.name remote))).

(** The calls of the caller's callback a stream of items leads to:
    those of the handler, item after item. *)
Definition streamCalls (remote : IRemote.t) (items : list GitProgress)
    : list Event :=
  mjoin ((fun p => fst (fetchProgressHandler remote p)) <$> items).

(** The argument of the call under the comment [Initial progress]. *)
Definition initialProgress (remote : IRemote.t) : IFetchProgress :=
  mkFetchProgress "fetch" ("Fetching " +:+ IRemote.name remote) None
    0%float (IRemote.name remote).

(** [fetch]; [progressCallback] tells whether a callback was passed,
    and each invocation of it is the event [Called]. *)
Definition fetch (repository : Repository.t)
    (account : option IGitAccount) (remote : IRemote.t)
    (progressCallback : bool) : Async.t Event unit :=
  env ← await (envForRemoteOperation W account (IRemote.url remote));
  let opts := mkOptions {[ 0 ]} env false None in
  opts ← (if progressCallback then
            opts ← executionOptionsWithProgress
                     (mkOptions (successExitCodes opts) (Fetch.env opts)
                        true (processCallback opts))
                     (fetchProgressHandler remote);
            _ ← emit (Called (initialProgress remote));
            mret opts
          else mret opts);
  args ← getFetchArgs repository (IRemote.name remote) account
           progressCallback;
  _ ← git args (Repository.path repository) "fetch" opts;
  mret tt.

(** [fetchRefspec] *)
Definition fetchRefspec (repository : Repository.t)
    (account : option IGitAccount) (remote : IRemote.t)
    (refspec : string) : Async.t Event unit :=
  env ← await (envForRemoteOperation W account (IRemote.url remote));
  let options := mkOptions {[ 0; 128 ]} env false None in
  networkArguments ← await (gitNetworkArguments W repository account);
  let args := networkArguments ++ [ "fetch"; IRemote.name remote; refspec ] in
  _ ← git args (Repository.path repository) "fetchRefspec" options;
  mret tt.

(** *** [fastForwardBranches] *)

(** The line feed, ['\n']. *)
Definition LF : string := String "010"%char "".

(** The body of the [for] loop: what one line does to the map
    [updatedBranches].  A value of the map is [None] where JavaScript
    would store [undefined]. *)
Definition recordLine (updatedBranches : gmap string (option string))
    (line : string) : gmap string (option string) :=
  let pieces :=
    List.filter (fun piece => 0 <? Z.of_nat (String.length piece))
      (JS.split line " ") in
  match pieces with
  | [] => updatedBranches
  | first :: _ =>
      if JS.indexOf first ".." <? 0 then updatedBranches
      else
        let to := JS.split first ".." !! 1%nat in
        <[ List.last pieces first := to ]> updatedBranches
  end.

(** The lines the loop runs over: the combined output split at line
    feeds, without its first and its last line. *)
Definition outputLines (combinedOutput : string) : list string :=
  JS.splice_last (JS.splice_first (JS.split combinedOutput LF)).

(** The map [updatedBranches] when the loop is over. *)
Definition updatedBranches (combinedOutput : string)
    : gmap string (option string) :=
  foldl recordLine ∅ (outputLines combinedOutput).

(** What [fastForwardBranches] returns for a combined output. *)
Definition parseCombinedOutput (combinedOutput : string)
    (branches : list Branch.t) : list Branch.t :=
  let updated := updatedBranches combinedOutput in
  List.filter
    (fun branch => bool_decide (is_Some (updated !! Branch.name branch)))
    branches.

Definition fastForwardBranches (repository : Repository.t)
    (branches : list Branch.t) : Async.t Event (list Branch.t) :=
  let opts :=
    mkOptions {[ 0; 1 ]} [ ("GIT_REFLOG_ACTION", "pull") ] false None in
  let branchPairs :=
    map (fun branch =>
           "refs/remotes/" +:+ Branch.upstream branch +:+
           ":refs/heads/" +:+ Branch.name branch) branches in
  result ← git ([ "-c"; "fetch.output=full"; "-c"; "core.abbrev=40";
                  "fetch"; "."; "--show-forced-updates"; "-v" ]
                  ++ branchPairs)
             (Repository.path repository) "fastForwardBranches" opts;
  mret (parseCombinedOutput (combinedOutput result) branches).

End Fetch.
Arguments Collaborators : clear implicits.

End Fetch.

(** ** The cloning store *)
Module CloningRepositories.
Import Async.

(** [CloningRepository]: [id] is given by the field initialiser
    [CloningRepositoryID++]. *)
Record CloningRepository : Type := mkCloningRepository {
  id : Z;
  path : string;
  url : string;
}.

(** [ICloningRepositoryState]; [progressValue] may be missing. *)
Record ICloningRepositoryState : Type := mkState {
  output : string;
  progressValue : option float;
}.

(** [CloningRepositoriesStore].  The listeners of [emitter] are code of
    the callers; what is kept of the emitter is the list of the events
    it has emitted, latest first. *)
Record CloningRepositoriesStore : Type := mkStore {
  emitter : list string;
  _repositories : list CloningRepository;
  stateByID : gmap Z ICloningRepositoryState;
}.

(** The module-level counter and the one store the application
    creates. *)
Record World : Type := mkWorld {
  CloningRepositoryID : Z;
  store : CloningRepositoriesStore;
}.

(** The module when it has just been loaded. *)
Definition initial : World := mkWorld 1 (mkStore [] [] ∅).

(** [new CloningRepository(path, url)] *)
Definition newCloningRepository (path url : string) (w : World)
    : CloningRepository * World :=
  (mkCloningRepository (CloningRepositoryID w) path url,
   mkWorld (CloningRepositoryID w + 1) (store w)).

Definition emitUpdate (s : CloningRepositoriesStore)
    : CloningRepositoriesStore :=
  mkStore ("did-update" :: emitter s) (_repositories s) (stateByID s).

(** [remove] *)
Definition remove (repository : CloningRepository)
    (s : CloningRepositoriesStore) : CloningRepositoriesStore :=
  let stateByID' := delete (id repository) (stateByID s) in
  let repoIndex :=
    JS.findIndex (fun r => id r =? id repository) (_repositories s) in
  let repositories' :=
    if repoIndex >? -1 then JS.splice_at repoIndex (_repositories s)
    else _repositories s in
  emitUpdate (mkStore (emitter s) repositories' stateByID').

(** The synchronous part of [clone]: everything but the callbacks of
    [LocalGitOperations.clone], which run later.  The repository is
    returned because the callbacks close over it. *)
Definition clone (url path : string) (w : World)
    : CloningRepository * World :=
  let '(repository, w) := newCloningRepository path url w in
  let s := store w in
  let s := mkStore (emitter s) (_repositories s ++ [ repository ])
             (stateByID s) in
  let s := mkStore (emitter s) (_repositories s)
             (<[ id repository := mkState ("Cloning into " +:+ path) None ]>
                (stateByID s)) in
  (repository, mkWorld (CloningRepositoryID w) (emitUpdate s)).

(** The progress callback [clone] passes to [LocalGitOperations.clone],
    for the repository it closes over.  [parsed] is the answer of
    [progressParser.parse(progress)], [None] for [null]. *)
Definition cloneProgress (repository : CloningRepository)
    (progress : string) (parsed : option float)
    (s : CloningRepositoriesStore) : CloningRepositoriesStore :=
  let s :=
    match parsed with
    | Some progressValue =>
        mkStore (emitter s) (_repositories s)
          (<[ id repository := mkState progress (Some progressValue) ]>
             (stateByID s))
    | None =>
        mkStore (emitter s) (_repositories s)
          (<[ id repository := mkState progress None ]> (stateByID s))
    end in
  emitUpdate s.

(** The promise [clone] returns, when the promise of
    [LocalGitOperations.clone] settles with [outcome]: [.then] is given
    a handler for fulfilment only. *)
Definition cloneSettled (repository : CloningRepository)
    (outcome : Promise unit) (s : CloningRepositoriesStore)
    : CloningRepositoriesStore * Promise unit :=
  match outcome with
  | Resolved _ => (remove repository s, Resolved tt)
  | Rejected e => (s, Rejected e)
  end.

(** The getter [repositories] *)
Definition repositories (s : CloningRepositoriesStore)
    : list CloningRepository := _repositories s.

(** [getRepositoryState] *)
Definition getRepositoryState (repository : CloningRepository)
    (s : CloningRepositoriesStore) : option ICloningRepositoryState :=
  stateByID s !! id repository.

(** *** Runs of the store

    JavaScript runs one callback at a time, so a run of the store is a
    sequence of steps: a call of [clone], a constructor call made
    elsewhere, a progress callback, the settling of a clone, a call of
    [remove]. *)
Inductive Action : Type :=
| Clone (url path : string)
| Construct (path url : string)
| Progress (repository : CloningRepository) (progress : string)
    (parsed : option float)
| Settle (repository : CloningRepository) (outcome : Promise unit)
| Remove (repository : CloningRepository).

Definition onStore (f : CloningRepositoriesStore -> CloningRepositoriesStore)
    (w : World) : World :=
  mkWorld (CloningRepositoryID w) (f (store w)).

Definition step (w : World) (a : Action) : World :=
  match a with
  | Clone url path => snd (clone url path w)
  | Construct path url => snd (newCloningRepository path url w)
  | Progress repository progress parsed =>
      onStore (cloneProgress repository progress parsed) w
  | Settle repository outcome =>
      onStore (fun s => fst (cloneSettled repository outcome s)) w
  | Remove repository => onStore (remove repository) w
  end.

Definition run (w : World) (actions : list Action) : World :=
  foldl step w actions.

(** The ids of the live list. *)
Definition liveIds (s : CloningRepositoriesStore) : list Z :=
  id <$> _repositories s.

(** The two structures agree: the ids of the state map are the ids of
    the live list. *)
Definition agree (s : CloningRepositoriesStore) : Prop :=
  ∀ i : Z, is_Some (stateByID s !! i) ↔ i ∈ liveIds s.

(** What every run preserves: the ids of the live list are below the
    counter and all different, and each of them has an entry in the
    state map. *)
Definition consistent (w : World) : Prop :=
  Forall (λ r, id r < CloningRepositoryID w) (_repositories (store w)) ∧
  NoDup (liveIds (store w)) ∧
  (∀ i, i ∈ liveIds (store w) → is_Some (stateByID (store w) !! i)).

(** Every progress callback of the run is for a repository that is in
    the live list when the callback runs. *)
Fixpoint progressOnlyWhileLive (w : World) (actions : list Action) : Prop :=
  match actions with
  | [] => True
  | a :: actions' =>
      match a with
      | Progress repository _ _ => id repository ∈ liveIds (store w)
      | _ => True
      end ∧ progressOnlyWhileLive (step w a) actions'
  end.

End CloningRepositories.

(** ** Reading the fast-forward parser

    Two descriptions of the branches [fastForwardBranches] returns: the
    first follows the loop of the code, the second the words of the
    specification. *)
Module FastForward.
Import Fetch.

(** The tokens of a line as the loop computes them: the pieces between
    single spaces that are not empty. *)
Definition pieces (line : string) : list string :=
  List.filter (fun piece => 0 <? Z.of_nat (String.length piece))
    (JS.split line " ").

(** The line has a first token with [..] in it and ends with [name]. *)
Definition reportsUpdate (name line : string) : bool :=
  match pieces line with
  | [] => false
  | first :: _ =>
      (0 <=? JS.indexOf first "..") &&
      String.eqb (List.last (pieces line) first) name
  end.

(** The new target such a line gives: the second of the parts its first
    token splits into at [..]. *)
Definition targetOf (line : string) : option string :=
  match pieces line with
  | [] => None
  | first :: _ => JS.split first ".." !! 1%nat
  end.

(** The branches whose name some line of [lines] reports, in the order
    of [branches]. *)
Definition reported (lines : list string) (branches : list Branch.t)
    : list Branch.t :=
  List.filter
    (fun branch => existsb (reportsUpdate (Branch.name branch)) lines)
    branches.

(** *** The words of the specification *)

(** White space: the blank, the tabulation and the line breaks. *)
Definition isWhitespace (c : ascii) : bool :=
  match nat_of_ascii c with
  | 9%nat | 10%nat | 11%nat | 12%nat | 13%nat | 32%nat => true
  | _ => false
  end.

(** The tokens delimited by white space. *)
Fixpoint tokens (s : string) : list string :=
  match s with
  | EmptyString => []
  | String c s' =>
      if isWhitespace c then tokens s'
      else
        match s' with
        | EmptyString => [ String c "" ]
        | String c' _ =>
            if isWhitespace c' then String c "" :: tokens s'
            else match tokens s' with
                 | token :: rest => String c token :: rest
                 | [] => [ String c "" ]
                 end
        end
  end.

(** [name] is the last token of a line whose first token contains
    [..]. *)
Definition namesUpdated (name line : string) : bool :=
  match tokens line with
  | [] => false
  | first :: _ =>
      (0 <=? JS.indexOf first "..") &&
      String.eqb (List.last (tokens line) first) name
  end.

(** The subset of the requested branches whose name is on such a line of
    the output, in the caller's order. *)
Definition updatedSubset (combinedOutput : string)
    (branches : list Branch.t) : list Branch.t :=
  List.filter
    (fun branch =>
       existsb (namesUpdated (Branch.name branch))
         (JS.split combinedOutput LF))
    branches.

End FastForward.

(** ** Sample inputs *)
Module Examples.
Import Async Fetch CloningRepositories.

Definition sampleRepository : Repository.t := Repository.mk "/work/desktop".

Definition origin : IRemote.t :=
  IRemote.mk "origin" "https://example.com/desktop.git".

(** A process that prints three lines of progress and exits with 128. *)
Definition sampleProcess : Process :=
  mkProcess
    [ context 0%float "remote: Counting objects: 52";
      context 0%float "From https://example.com/desktop";
      progress 0.5%float "Receiving objects:  50% (26/52)" ]
    128 "".

(** Collaborators that all resolve, with the submodule toggle on. *)
Definition sampleCollaborators : Collaborators unit :=
  mkCollaborators
    (fun _ _ => Resolved [ "-c"; "credential.helper=" ])
    (fun _ _ => Resolved [ ("GIT_TERMINAL_PROMPT", "0") ])
    true
    (Resolved tt)
    (fun _ _ => sampleProcess).

Definition main : Branch.t := Branch.mk "main" "origin/main".
Definition dev : Branch.t := Branch.mk "dev" "origin/dev".

(** The output of the example of the specification: the update line
    begins with the flag [+]. *)
Definition flaggedOutput : string :=
  "From ." +:+ LF +:+
  "+ 1111111..2222222  refs/heads/main  main" +:+ LF.

(** The same output with a blank in the column of the flag. *)
Definition plainOutput : string :=
  "From ." +:+ LF +:+
  "  1111111..2222222  refs/heads/main  main" +:+ LF.

(** The repository the first [clone] of a run creates. *)
Definition firstClone : CloningRepository :=
  mkCloningRepository 1 "/work/a" "https://example.com/a.git".

(** Two clones in flight, progress for the first, which then resolves. *)
Definition orderlyRun : list Action :=
  [ Clone "https://example.com/a.git" "/work/a";
    Clone "https://example.com/b.git" "/work/b";
    Progress firstClone "Receiving objects:  10% (1/10)" (Some 0.125%float);
    Settle firstClone (Resolved tt) ].

(** A clone is removed by hand while its process goes on, and a line of
    progress arrives afterwards. *)
Definition lateProgressRun : list Action :=
  [ Clone "https://example.com/a.git" "/work/a";
    Remove firstClone;
    Progress firstClone "Receiving objects:  10% (1/10)" None ].

End Examples.

(** ** Counting over the runs of the store *)
Module Runs.
Import Async CloningRepositories.

(** The steps that end with a call of [emitUpdate]: [clone], a progress
    callback, [remove], and the settling of a clone that resolved (its
    [.then] handler calls [remove]). *)
Definition notifies (a : Action) : bool :=
  match a with
  | Clone _ _ | Progress _ _ _ | Remove _ => true
  | Settle _ (Resolved _) => true
  | Settle _ (Rejected _) => false
  | Construct _ _ => false
  end.

(** The steps that run the constructor of [CloningRepository]. *)
Definition creates (a : Action) : bool :=
  match a with
  | Clone _ _ | Construct _ _ => true
  | _ => false
  end.

(** The ids of the live list go up, and lie between 1 and the counter. *)
Definition ordered (w : World) : Prop :=
  1 ≤ CloningRepositoryID w ∧
  StronglySorted Z.lt (liveIds (store w)) ∧
  Forall (λ i, 1 ≤ i < CloningRepositoryID w) (liveIds (store w)).

End Runs.

(** ** Reading the progress stream of a fetch *)
Module Stream.
Import Async Fetch.

(** The items the handler of [fetch] lets through: every item of kind
    [progress], and the items of kind [context] whose text begins with
    [remote: Counting objects]. *)
Definition kept (p : GitProgress) : bool :=
  match p with
  | progress _ _ => true
  | context _ text => JS.startsWith text "remote: Counting objects"
  end.

(** The event the caller receives for an item: its text as description
    and its percentage as value. *)
Definition forwarded (remote : IRemote.t) (p : GitProgress)
    : IFetchProgress :=
  mkFetchProgress "fetch" ("Fetching " +:+ IRemote.name remote)
    (Some match p with
          | progress _ details_text => details_text
          | context _ text => text
          end)
    (percent p) (IRemote.name remote).

(** The arguments of [git fetch] for a remote, after the network
    arguments. *)
Definition fetchTokens (withProgress recurse : bool) (remote : string)
    : list string :=
  "fetch" :: (if withProgress then [ "--progress" ] else [])
    ++ "--prune"
    :: (if recurse then [ "--recurse-submodules=on-demand" ] else [])
    ++ [ remote ].

End Stream.

(** ** More sample inputs *)
Module MoreExamples.
Import Async Fetch Examples.

(** The process exits with 1, after the output of a fast-forward of
    [main]. *)
Definition failingCollaborators : Collaborators unit :=
  mkCollaborators
    (fun _ _ => Resolved [ "-c"; "credential.helper=" ])
    (fun _ _ => Resolved [ ("GIT_TERMINAL_PROMPT", "0") ])
    false
    (Resolved tt)
    (fun _ _ => mkProcess [] 1 plainOutput).

(** The environment of the remote operation cannot be set up. *)
Definition noEnvironment : Collaborators unit :=
  mkCollaborators
    (fun _ _ => Resolved [ "-c"; "credential.helper=" ])
    (fun _ _ => Rejected (CollaboratorError "no proxy"))
    false
    (Resolved tt)
    (fun _ _ => sampleProcess).

(** The network arguments cannot be computed. *)
Definition noNetworkArguments : Collaborators unit :=
  mkCollaborators
    (fun _ _ => Rejected (CollaboratorError "no account"))
    (fun _ _ => Resolved [ ("GIT_TERMINAL_PROMPT", "0") ])
    false
    (Resolved tt)
    (fun _ _ => sampleProcess).

(** The progress options cannot be set up. *)
Definition noProgressSetup : Collaborators unit :=
  mkCollaborators
    (fun _ _ => Resolved [ "-c"; "credential.helper=" ])
    (fun _ _ => Resolved [ ("GIT_TERMINAL_PROMPT", "0") ])
    false
    (Rejected (CollaboratorError "no lfs"))
    (fun _ _ => sampleProcess).

(** The output of a fast-forward of [main], to another target. *)
Definition otherTargetOutput : string :=
  "From ." +:+ LF +:+
  "  1111111..9999999  refs/heads/main  main" +:+ LF.

(** The tabulation, ['\t']. *)
Definition TAB : string := String "009"%char "".

(** An update line whose tokens are separated by tabulations. *)
Definition tabbedOutput : string :=
  "From ." +:+ LF +:+
  "1111111..2222222" +:+ TAB +:+ "refs/heads/main" +:+ TAB +:+ "main"
  +:+ LF.

End MoreExamples.

(** ** Counting the lines of an output *)
Module Lines.
Import Fetch.

(** The number of line feeds of a string. *)
Fixpoint lineFeeds (s : string) : nat :=
  match s with
  | EmptyString => 0%nat
  | String c s' =>
      if Ascii.eqb "010"%char c then S (lineFeeds s') else lineFeeds s'
  end.

End Lines.

(** ** Facts about the built-ins *)
Module JSFacts.
Import JS.

Lemma split_from_nonempty sep skip s : split_from sep skip s ≠ [].
Proof.
  revert skip.
  induction s as [|c s IH]; intros skip; cbn [split_from]; [done|].
  destruct skip as [|k]; [|apply IH].
  destruct (String.prefix sep (String c s)); [done|].
  destruct (split_from sep 0 s); done.
Qed.

Lemma indexOf_lower s sep : -1 ≤ indexOf s sep.
Proof.
  induction s as [|c s IH]; cbn [indexOf].
  - destruct (String.prefix sep ""); lia.
  - destruct (String.prefix sep (String c s)); [lia|].
    destruct (Z.ltb_spec (indexOf s sep) 0); lia.
Qed.

(** When [indexOf] finds the separator, [split] has a second piece:
    [s.split(sep)[1]] is not [undefined]. *)
Lemma split_second_defined s sep :
  sep ≠ "" → 0 ≤ indexOf s sep → is_Some (split s sep !! 1%nat).
Proof.
  intros Hsep. unfold split.
  induction s as [|c s IH]; cbn [indexOf split_from].
  - destruct sep; simpl; [done|lia].
  - destruct (String.prefix sep (String c s)) eqn:Hp.
    + intros _. pose proof (split_from_nonempty sep (String.length sep - 1) s).
      simpl. destruct (split_from sep (String.length sep - 1) s); [done|].
      by eexists.
    + destruct (Z.ltb_spec (indexOf s sep) 0) as [Hneg|Hpos]; [lia|].
      intros _. specialize (IH Hpos).
      destruct (split_from sep 0 s) as [|piece pieces]; [by destruct IH|].
      exact IH.
Qed.

(** [findIndex] and [splice]: either no element satisfies the test, or
    the array splits around the first one that does. *)
Lemma findIndex_spec {A} (p : A → bool) (a : list A) :
  (findIndex p a = -1 ∧ Forall (λ x, p x = false) a) ∨
  (∃ a1 x a2, a = a1 ++ x :: a2 ∧ Forall (λ y, p y = false) a1 ∧
              p x = true ∧ findIndex p a = Z.of_nat (length a1) ∧
              splice_at (findIndex p a) a = a1 ++ a2).
Proof.
  induction a as [|y a IH]; simpl.
  - left. by split.
  - destruct (p y) eqn:Hy.
    + right. exists [], y, a. by repeat split.
    + destruct IH as [[Hi Hall]|(a1 & x & a2 & -> & Hall & Hx & Hi & Hs)].
      * left. rewrite Hi. simpl. split; [done|]. by constructor.
      * right. exists (y :: a1), x, a2. rewrite Hi.
        destruct (Z.ltb_spec (Z.of_nat (length a1)) 0) as [?|_]; [lia|].
        repeat split; [by constructor|done|simpl; lia|].
        unfold splice_at in *. rewrite Hi in Hs.
        replace (Z.to_nat (Z.of_nat (length a1) + 1))
          with (S (length a1)) by lia.
        rewrite Nat2Z.id in Hs. simpl. by rewrite Hs.
Qed.

End JSFacts.

(** ** [getFetchArgs], [fetch] and [fetchRefspec] *)
Module FetchFacts.
Import Async Fetch.

(** Closed goals about lists of flags are settled by evaluation. *)
Local Ltac closed_list :=
  first [ apply (bool_decide_unpack _); vm_compute; exact I
        | split; [ intros _; reflexivity
                 | intros _; apply (bool_decide_unpack _); vm_compute;
                   exact I ] ].

Section Facts.
Context {IGitAccount : Type}.
Variable W : Collaborators IGitAccount.

(** [getFetchArgs] has no effect of its own and resolves as soon as
    the network arguments do. *)
Lemma getFetchArgs_resolves repository remote account progressCallback
    networkArguments :
  gitNetworkArguments W repository account = Resolved networkArguments →
  ∃ args, getFetchArgs W repository remote account progressCallback
          = ([], Resolved args).
Proof.
  intros Hnet. unfold getFetchArgs. rewrite Hnet.
  destruct (enableRecurseSubmodulesFlag W); by eexists.
Qed.

(** C6.  Once the network arguments are there, the argument list of
    [fetch] is these arguments, then [fetch], then the flags, then the
    remote name as last token.  Among the flags, which are all
    different, [--prune] is always present, [--progress] is present
    exactly when a progress callback is passed, the submodule flag
    exactly when the feature toggle is on, and [--progress] stands
    before the submodule flag when both are present. *)
Theorem getFetchArgs_shape (repository : Repository.t) (remote : string)
    (account : option IGitAccount) (progressCallback : bool)
    (networkArguments : list string) :
  gitNetworkArguments W repository account = Resolved networkArguments →
  ∃ args flags : list string,
    getFetchArgs W repository remote account progressCallback
      = ([], Resolved args) ∧
    args = networkArguments ++ "fetch" :: flags ++ [ remote ] ∧
    last args = Some remote ∧
    NoDup flags ∧
    "--prune" ∈ flags ∧
    ("--progress" ∈ flags ↔ progressCallback = true) ∧
    ("--recurse-submodules=on-demand" ∈ flags
       ↔ enableRecurseSubmodulesFlag W = true) ∧
    (progressCallback = true → enableRecurseSubmodulesFlag W = true →
     ∃ i j : nat, flags !! i = Some "--progress" ∧
                  flags !! j = Some "--recurse-submodules=on-demand" ∧
                  (i < j)%nat).
Proof.
  intros Hnet. unfold getFetchArgs. rewrite Hnet.
  assert (Hlast : ∀ flags : list string,
             last (networkArguments ++ "fetch" :: flags ++ [ remote ])
             = Some remote).
  { intros flags.
    change ("fetch" :: flags ++ [ remote ])
      with (("fetch" :: flags) ++ [ remote ]).
    by rewrite (assoc_L (++)), last_snoc. }
  destruct (enableRecurseSubmodulesFlag W), progressCallback; simpl.
  - exists (networkArguments ++ "fetch" ::
              [ "--progress"; "--prune"; "--recurse-submodules=on-demand" ]
              ++ [ remote ]),
      [ "--progress"; "--prune"; "--recurse-submodules=on-demand" ].
    split_and!; try done; try by closed_list.
    intros _ _. by exists 0%nat, 2%nat; split_and!; [..|lia].
  - exists (networkArguments ++ "fetch" ::
              [ "--prune"; "--recurse-submodules=on-demand" ] ++ [ remote ]),
      [ "--prune"; "--recurse-submodules=on-demand" ].
    split_and!; try done; by closed_list.
  - exists (networkArguments ++ "fetch" ::
              [ "--progress"; "--prune" ] ++ [ remote ]),
      [ "--progress"; "--prune" ].
    split_and!; try done; by closed_list.
  - exists (networkArguments ++ "fetch" :: [ "--prune" ] ++ [ remote ]),
      [ "--prune" ].
    split_and!; try done; by closed_list.
Qed.

(** The runner, for options without a handler: the process is
    started, and the promise resolves exactly when the exit code is
    among the declared ones. *)
Lemma git_without_handler args path name codes env lfs :
  git W args path name (mkOptions codes env lfs None)
  = ([ Spawned args path name ],
     if bool_decide (exitCode (spawn W args path) ∈ codes)
     then Resolved (spawn W args path)
     else Rejected (ExternalProcessError (exitCode (spawn W args path)))).
Proof. unfold git. simpl. by case_bool_decide. Qed.

(** C5.  Once the environment and the network arguments are there,
    [fetchRefspec] starts the process with the network arguments
    followed by [fetch], the remote name and the refspec, and nothing
    else (neither [--prune] nor [--progress] is added); when the exit
    code of the process is 0 or 128 the promise resolves. *)
Theorem fetchRefspec_resolves_on_0_and_128 (repository : Repository.t)
    (account : option IGitAccount) (remote : IRemote.t)
    (refspec : string) (env : list (string * string))
    (networkArguments : list string) :
  envForRemoteOperation W account (IRemote.url remote) = Resolved env →
  gitNetworkArguments W repository account = Resolved networkArguments →
  let args :=
    networkArguments ++ [ "fetch"; IRemote.name remote; refspec ] in
  let code := exitCode (spawn W args (Repository.path repository)) in
  code = 0 ∨ code = 128 →
  fetchRefspec W repository account remote refspec
  = ([ Spawned args (Repository.path repository) "fetchRefspec" ],
     Resolved tt).
Proof.
  intros Henv Hnet args code Hcode. unfold fetchRefspec.
  rewrite Henv, Hnet. simpl. fold args.
  rewrite git_without_handler. fold code. simpl.
  rewrite bool_decide_eq_true_2; [done|].
  rewrite elem_of_union, !elem_of_singleton. tauto.
Qed.

(** Any other exit code makes [fetchRefspec] reject with
    [ExternalProcessError]. *)
Lemma fetchRefspec_rejects_otherwise repository account remote refspec
    env networkArguments :
  envForRemoteOperation W account (IRemote.url remote) = Resolved env →
  gitNetworkArguments W repository account = Resolved networkArguments →
  let args :=
    networkArguments ++ [ "fetch"; IRemote.name remote; refspec ] in
  let code := exitCode (spawn W args (Repository.path repository)) in
  code ≠ 0 → code ≠ 128 →
  snd (fetchRefspec W repository account remote refspec)
  = Rejected (ExternalProcessError code).
Proof.
  intros Henv Hnet args code H0 H128. unfold fetchRefspec.
  rewrite Henv, Hnet. simpl. fold args.
  rewrite git_without_handler. fold code. simpl.
  rewrite bool_decide_eq_false_2; [done|].
  rewrite elem_of_union, !elem_of_singleton. tauto.
Qed.

(** The handler never fails. *)
Lemma fetchProgressHandler_resolves remote p :
  snd (fetchProgressHandler remote p) = Resolved tt.
Proof.
  unfold fetchProgressHandler.
  destruct p as [v d|v text]; [done|].
  by destruct (JS.startsWith text _).
Qed.

(** C8.  The handler of the fetch progress stream invokes the caller's
    callback at most once per item.  It does not invoke it exactly for
    the items of kind [context] whose text does not begin with
    [remote: Counting objects]; for every other item the callback is
    invoked once, with the text and the percentage of the item. *)
Theorem fetchProgressHandler_filter (remote : IRemote.t)
    (p : GitProgress) :
  snd (fetchProgressHandler remote p) = Resolved tt ∧
  (fst (fetchProgressHandler remote p) = []
   ↔ ∃ v text, p = context v text ∧
               JS.startsWith text "remote: Counting objects" = false) ∧
  (fst (fetchProgressHandler remote p) ≠ [] →
   fst (fetchProgressHandler remote p)
   = [ Called (mkFetchProgress "fetch"
                 ("Fetching " +:+ IRemote.name remote)
                 (Some match p with
                       | progress _ details_text => details_text
                       | context _ text => text
                       end)
                 (percent p) (IRemote.name remote)) ]).
Proof.
  unfold fetchProgressHandler.
  destruct p as [v details|v text]; simpl.
  - split_and!; [done| |done].
    split; [done|]. by intros (? & ? & ? & ?).
  - destruct (JS.startsWith text "remote: Counting objects") eqn:Hp;
      simpl; split_and!; try done.
    + split; [done|]. intros (? & ? & [= <- <-] & ?). congruence.
    + split; [|done]. intros _. by exists v, text.
Qed.

Lemma for_each_handler remote items :
  for_each (fetchProgressHandler remote) items
  = (streamCalls remote items, Resolved tt).
Proof.
  unfold streamCalls. induction items as [|p items IH]; [done|].
  cbn [for_each fmap list_fmap mjoin list_join]. rewrite IH.
  pose proof (fetchProgressHandler_resolves remote p) as Hs.
  destruct (fetchProgressHandler remote p) as [tr r].
  simpl in Hs. subst r. done.
Qed.

Lemma streamCalls_described remote items :
  Forall (λ e, ∃ p d, e = Called p ∧ description p = Some d)
    (streamCalls remote items).
Proof.
  unfold streamCalls. induction items as [|p items IH]; [constructor|].
  cbn [fmap list_fmap mjoin list_join]. apply Forall_app. split; [|done].
  destruct p as [v d|v text]; unfold fetchProgressHandler; simpl.
  - repeat constructor. by eexists _, _.
  - destruct (JS.startsWith text _); simpl; repeat constructor.
    by eexists _, _.
Qed.

(** A whole run of [fetch] with a progress callback, when every
    collaborator resolves. *)
Lemma fetch_with_callback_trace repository account remote env
    networkArguments args :
  envForRemoteOperation W account (IRemote.url remote) = Resolved env →
  progressSetup W = Resolved tt →
  gitNetworkArguments W repository account = Resolved networkArguments →
  getFetchArgs W repository (IRemote.name remote) account true
    = ([], Resolved args) →
  fst (fetch W repository account remote true)
  = Called (initialProgress remote)
      :: Spawned args (Repository.path repository) "fetch"
      :: streamCalls remote
           (items (spawn W args (Repository.path repository))).
Proof.
  intros Henv Hsetup Hnet Hargs. unfold fetch.
  rewrite Henv. unfold executionOptionsWithProgress. rewrite Hsetup.
  cbn [await mbind async_bind bind mret async_ret ret emit app].
  rewrite Hargs.
  cbn [await mbind async_bind bind mret async_ret ret emit app].
  unfold git.
  cbn [await mbind async_bind bind mret async_ret ret emit app
       processCallback].
  rewrite for_each_handler.
  cbn [await mbind async_bind bind mret async_ret ret emit app].
  case_bool_decide; simpl; by rewrite ?app_nil_r.
Qed.

(** C10.  When [fetch] is called with a progress callback and the
    setup it awaits first (the environment, the options with progress)
    resolves, the first thing to happen is one call of the callback
    with the initial event: kind [fetch], title [Fetching <remote>],
    value 0, the remote name, no description.  The external process is
    started after it, if at all, and every later call of the callback
    carries a description, so the initial event is sent once. *)
Theorem fetch_initial_progress_first (repository : Repository.t)
    (account : option IGitAccount) (remote : IRemote.t)
    (env : list (string * string)) :
  envForRemoteOperation W account (IRemote.url remote) = Resolved env →
  progressSetup W = Resolved tt →
  ∃ rest : list Event,
    fst (fetch W repository account remote true)
      = Called (initialProgress remote) :: rest ∧
    initialProgress remote
      = mkFetchProgress "fetch" ("Fetching " +:+ IRemote.name remote)
          None 0%float (IRemote.name remote) ∧
    (rest = [] ∨
     ∃ args stream,
       rest = Spawned args (Repository.path repository) "fetch" :: stream ∧
       Forall (λ e, ∃ p d, e = Called p ∧ description p = Some d) stream).
Proof.
  intros Henv Hsetup.
  destruct (gitNetworkArguments W repository account)
    as [networkArguments|e] eqn:Hnet.
  - destruct (getFetchArgs_resolves repository (IRemote.name remote)
                account true networkArguments Hnet) as (args & Hargs).
    eexists. split; [|split; [done|]].
    + by apply (fetch_with_callback_trace _ _ _ env networkArguments args).
    + right. eexists _, _. split; [done|]. apply streamCalls_described.
  - exists []. split; [|split; [done|by left]].
    unfold fetch. rewrite Henv.
    unfold executionOptionsWithProgress, getFetchArgs.
    rewrite Hsetup, Hnet. done.
Qed.

(** Without a callback nothing is sent: the run starts with the
    process. *)
Lemma fetch_without_callback repository account remote env
    networkArguments :
  envForRemoteOperation W account (IRemote.url remote) = Resolved env →
  gitNetworkArguments W repository account = Resolved networkArguments →
  ∃ args, fst (fetch W repository account remote false)
          = [ Spawned args (Repository.path repository) "fetch" ].
Proof.
  intros Henv Hnet.
  destruct (getFetchArgs_resolves repository (IRemote.name remote)
              account false networkArguments Hnet) as (args & Hargs).
  exists args. unfold fetch. rewrite Henv.
  cbn [await mbind async_bind bind mret async_ret ret emit app].
  rewrite Hargs.
  cbn [await mbind async_bind bind mret async_ret ret emit app].
  rewrite git_without_handler. by case_bool_decide.
Qed.

End Facts.

Import Examples.

Lemma getFetchArgs_shape_witness :
  gitNetworkArguments sampleCollaborators sampleRepository None
    = Resolved [ "-c"; "credential.helper=" ] ∧
  ∃ args flags : list string,
    getFetchArgs sampleCollaborators sampleRepository "origin" None true
      = ([], Resolved args) ∧
    args = [ "-c"; "credential.helper=" ] ++ "fetch" :: flags ++ [ "origin" ] ∧
    last args = Some "origin" ∧
    NoDup flags ∧
    "--prune" ∈ flags ∧
    ("--progress" ∈ flags ↔ true = true) ∧
    ("--recurse-submodules=on-demand" ∈ flags
       ↔ enableRecurseSubmodulesFlag sampleCollaborators = true) ∧
    (true = true → enableRecurseSubmodulesFlag sampleCollaborators = true →
     ∃ i j : nat, flags !! i = Some "--progress" ∧
                  flags !! j = Some "--recurse-submodules=on-demand" ∧
                  (i < j)%nat).
Proof.
  split; [reflexivity|].
  exact (getFetchArgs_shape sampleCollaborators sampleRepository "origin"
           None true [ "-c"; "credential.helper=" ] eq_refl).
Defined.

Lemma fetchRefspec_resolves_on_0_and_128_witness :
  exitCode (spawn sampleCollaborators
              [ "-c"; "credential.helper="; "fetch"; "origin";
                "refs/pull/1/head" ] "/work/desktop") = 128 ∧
  fetchRefspec sampleCollaborators sampleRepository None origin
    "refs/pull/1/head"
  = ([ Spawned [ "-c"; "credential.helper="; "fetch"; "origin";
                 "refs/pull/1/head" ] "/work/desktop" "fetchRefspec" ],
     Resolved tt).
Proof.
  split; [reflexivity|].
  exact (fetchRefspec_resolves_on_0_and_128 sampleCollaborators
           sampleRepository None origin "refs/pull/1/head"
           [ ("GIT_TERMINAL_PROMPT", "0") ] [ "-c"; "credential.helper=" ]
           eq_refl eq_refl (or_intror eq_refl)).
Defined.

Lemma fetch_initial_progress_first_witness :
  envForRemoteOperation sampleCollaborators None (IRemote.url origin)
    = Resolved [ ("GIT_TERMINAL_PROMPT", "0") ] ∧
  progressSetup sampleCollaborators = Resolved tt ∧
  ∃ rest : list Event,
    fst (fetch sampleCollaborators sampleRepository None origin true)
      = Called (initialProgress origin) :: rest ∧
    initialProgress origin
      = mkFetchProgress "fetch" ("Fetching " +:+ IRemote.name origin)
          None 0%float (IRemote.name origin) ∧
    (rest = [] ∨
     ∃ args stream,
       rest = Spawned args (Repository.path sampleRepository) "fetch"
                :: stream ∧
       Forall (λ e, ∃ p d, e = Called p ∧ description p = Some d) stream).
Proof.
  split; [reflexivity|]. split; [reflexivity|].
  exact (fetch_initial_progress_first sampleCollaborators sampleRepository
           None origin [ ("GIT_TERMINAL_PROMPT", "0") ] eq_refl eq_refl).
Defined.

End FetchFacts.

(** ** The parser of the fast-forward output *)
Module FastForwardFacts.
Import Async Fetch FastForward.

(** What one line does to the lookup of a name. *)
Lemma recordLine_lookup (m : gmap string (option string)) line name :
  recordLine m line !! name
  = if reportsUpdate name line then Some (targetOf line) else m !! name.
Proof.
  unfold recordLine, reportsUpdate, targetOf, pieces.
  destruct (List.filter _ (JS.split line " ")) as [|first rest] eqn:Hp;
    [done|].
  destruct (Z.ltb_spec (JS.indexOf first "..") 0) as [Hneg|Hpos].
  - rewrite (proj2 (Z.leb_gt _ _)) by lia. done.
  - rewrite (proj2 (Z.leb_le _ _)) by lia. cbn [andb].
    destruct (String.eqb_spec (List.last (first :: rest) first) name)
      as [->|Hne].
    + by rewrite lookup_insert_eq.
    + by rewrite lookup_insert_ne.
Qed.

(** A line that reports an update always gives a target. *)
Lemma reportsUpdate_target name line :
  reportsUpdate name line = true → is_Some (targetOf line).
Proof.
  unfold reportsUpdate, targetOf.
  destruct (pieces line) as [|first rest]; [done|].
  intros [Hidx _]%andb_true_iff.
  apply JSFacts.split_second_defined; [done|]. by apply Z.leb_le.
Qed.

(** The names in the map after the loop: those that were there and those
    some line reports. *)
Lemma foldl_recordLine_is_Some lines (m : gmap string (option string)) name :
  is_Some (foldl recordLine m lines !! name)
  ↔ is_Some (m !! name) ∨ existsb (reportsUpdate name) lines = true.
Proof.
  revert m. induction lines as [|line lines IH]; intros m; simpl.
  - split; [by left|]. by intros [?|?].
  - rewrite IH, recordLine_lookup.
    destruct (reportsUpdate name line); simpl.
    + split; [by right|]. intros _. by left.
    + done.
Qed.

(** The value the loop leaves for a reported name is the target of the
    last line that reports it: a later [set] replaces an earlier one. *)
Lemma foldl_recordLine_last lines (m : gmap string (option string)) name :
  existsb (reportsUpdate name) lines = true →
  ∃ before line after,
    lines = before ++ line :: after ∧
    reportsUpdate name line = true ∧
    existsb (reportsUpdate name) after = false ∧
    foldl recordLine m lines !! name = Some (targetOf line).
Proof.
  induction lines as [|line lines IH] using rev_ind; [done|].
  rewrite existsb_app, foldl_snoc, recordLine_lookup. simpl.
  rewrite orb_false_r.
  destruct (reportsUpdate name line) eqn:Hline.
  - intros _. exists lines, line, []. by split_and!.
  - rewrite orb_false_r.
    intros (before & l & after & -> & Hl & Hafter & Hm)%IH.
    exists before, l, (after ++ [ line ]). split_and!; [|done| |done].
    + by rewrite <- (assoc_L (++)).
    + rewrite existsb_app, Hafter. simpl. by rewrite Hline.
Qed.

(** Membership in the result of a [filter] of an array. *)
Lemma filter_ext_in_bool {A} (f g : A → bool) (l : list A) :
  (∀ x, f x = g x) → List.filter f l = List.filter g l.
Proof.
  intros Hfg. induction l as [|x l IH]; simpl; [done|].
  by rewrite Hfg, IH.
Qed.

(** [fastForwardBranches] starts the fetch of the local repository into
    itself and, when the exit code is 0 or 1, resolves with what
    [parseCombinedOutput] makes of the combined output. *)
Lemma fastForwardBranches_resolves {IGitAccount : Type}
    (W : Collaborators IGitAccount) (repository : Repository.t)
    (branches : list Branch.t) :
  let args :=
    [ "-c"; "fetch.output=full"; "-c"; "core.abbrev=40"; "fetch"; ".";
      "--show-forced-updates"; "-v" ]
    ++ map (fun branch =>
              "refs/remotes/" +:+ Branch.upstream branch +:+
              ":refs/heads/" +:+ Branch.name branch) branches in
  let result := spawn W args (Repository.path repository) in
  exitCode result = 0 ∨ exitCode result = 1 →
  fastForwardBranches W repository branches
  = ([ Spawned args (Repository.path repository) "fastForwardBranches" ],
     Resolved (parseCombinedOutput (combinedOutput result) branches)).
Proof.
  intros args result Hcode. unfold fastForwardBranches. fold args.
  unfold git. cbn [processCallback successExitCodes].
  fold result.
  rewrite bool_decide_eq_true_2
    by (rewrite elem_of_union, !elem_of_singleton; tauto).
  done.
Qed.

Import Examples.

(** Against C3 as it is worded: on the output of the example, the first
    token of the update line is [+], and nothing is returned. *)
Lemma parseCombinedOutput_flagged_returns_nothing :
  parseCombinedOutput flaggedOutput [ main; dev ] = [] ∧
  pieces "+ 1111111..2222222  refs/heads/main  main"
    = [ "+"; "1111111..2222222"; "refs/heads/main"; "main" ] ∧
  JS.indexOf "+" ".." = -1.
Proof. split_and!; vm_compute; reflexivity. Qed.

(** C3, as the code has it.  On the output of the example, whose update
    line begins with the flag [+], no branch is returned.  When the
    column of the flag is blank, the first token is the range and the
    requested branches [main] and [dev] give [main] alone, with the new
    id [2222222] in the map and no entry for [dev]. *)
Theorem parseCombinedOutput_example :
  parseCombinedOutput flaggedOutput [ main; dev ] = [] ∧
  parseCombinedOutput plainOutput [ main; dev ] = [ main ] ∧
  updatedBranches plainOutput !! "main" = Some (Some "2222222") ∧
  updatedBranches plainOutput !! "dev" = None.
Proof. split_and!; vm_compute; reflexivity. Qed.

End FastForwardFacts.

(** ** The cloning store *)
Module CloningRepositoriesFacts.
Import Async CloningRepositories.

(** *** [remove] *)

(** What [remove] does to the live list: nothing when no repository of
    the list has the id, and otherwise the first one with the id is
    taken out. *)
Lemma remove_repositories repository s :
  ((id repository ∉ liveIds s) ∧
   _repositories (remove repository s) = _repositories s) ∨
  (∃ before r after,
      _repositories s = before ++ r :: after ∧
      id r = id repository ∧
      (id repository ∉ (id <$> before)) ∧
      _repositories (remove repository s) = before ++ after).
Proof.
  unfold remove, liveIds. cbn [_repositories emitUpdate].
  destruct (JSFacts.findIndex_spec
              (λ r, id r =? id repository) (_repositories s))
    as [[Hi Hall]|(before & r & after & Heq & Hall & Hr & Hi & Hs)].
  - left. rewrite Hi. split; [|done].
    intros (r & Hid & Hin)%list_elem_of_fmap.
    rewrite Forall_forall in Hall. specialize (Hall r Hin).
    apply Z.eqb_neq in Hall. congruence.
  - right. exists before, r, after.
    rewrite Hs, Hi.
    replace (Z.of_nat (length before) >? -1) with true
      by (symmetry; apply Z.gtb_lt; lia).
    split_and!; [done|by apply Z.eqb_eq|
                 |done].
    intros (r' & Hid & Hin)%list_elem_of_fmap.
    rewrite Forall_forall in Hall. specialize (Hall r' Hin).
    apply Z.eqb_neq in Hall. congruence.
Qed.

Lemma remove_stateByID repository s :
  stateByID (remove repository s) = delete (id repository) (stateByID s).
Proof. done. Qed.

Lemma remove_emitter repository s :
  emitter (remove repository s) = "did-update" :: emitter s.
Proof. done. Qed.

(** After [remove] the ids of the list are those there were, but for the
    id removed, as long as no id is twice in the list. *)
Lemma remove_liveIds repository s i :
  NoDup (liveIds s) →
  i ∈ liveIds (remove repository s) ↔ i ∈ liveIds s ∧ i ≠ id repository.
Proof.
  intros Hnd. unfold liveIds in *.
  destruct (remove_repositories repository s)
    as [[Hnot ->]|(before & r & after & Heq & Hid & Hnot & ->)].
  - split; [|by intros [? _]]. intros Hi. split; [done|].
    intros ->. done.
  - rewrite Heq in Hnd. rewrite Heq.
    rewrite !fmap_app, fmap_cons in *. rewrite Hid in *.
    apply NoDup_app in Hnd as (_ & Hdisj & [Hnotin _]%NoDup_cons).
    rewrite !elem_of_app, elem_of_cons. split.
    + intros [Hi|Hi]; (split; [tauto|]); intros ->; [done|done].
    + intros [[Hi|[Hi|Hi]] Hne]; tauto.
Qed.

Lemma remove_sublist repository s :
  sublist (_repositories (remove repository s)) (_repositories s).
Proof.
  destruct (remove_repositories repository s)
    as [[_ ->]|(before & r & after & -> & _ & _ & ->)]; [done|].
  apply sublist_app; [done|]. by apply sublist_cons.
Qed.

(** *** [clone] *)

Lemma clone_fst url path w :
  fst (clone url path w) = mkCloningRepository (CloningRepositoryID w) path url.
Proof. done. Qed.

Lemma clone_counter url path w :
  CloningRepositoryID (snd (clone url path w)) = CloningRepositoryID w + 1.
Proof. done. Qed.

Lemma clone_repositories url path w :
  _repositories (store (snd (clone url path w)))
  = _repositories (store w) ++ [ fst (clone url path w) ].
Proof. done. Qed.

Lemma clone_stateByID url path w :
  stateByID (store (snd (clone url path w)))
  = <[ id (fst (clone url path w)) := mkState ("Cloning into " +:+ path) None ]>
      (stateByID (store w)).
Proof. done. Qed.

Lemma clone_emitter url path w :
  emitter (store (snd (clone url path w)))
  = "did-update" :: emitter (store w).
Proof. done. Qed.

(** *** The progress callback *)

Lemma cloneProgress_repositories repository progress parsed s :
  _repositories (cloneProgress repository progress parsed s)
  = _repositories s.
Proof. by destruct parsed. Qed.

Lemma cloneProgress_stateByID repository progress parsed s :
  stateByID (cloneProgress repository progress parsed s)
  = <[ id repository := mkState progress parsed ]> (stateByID s).
Proof. by destruct parsed. Qed.

Lemma cloneProgress_emitter repository progress parsed s :
  emitter (cloneProgress repository progress parsed s)
  = "did-update" :: emitter s.
Proof. by destruct parsed. Qed.

(** *** What every run preserves *)

Lemma consistent_initial : consistent initial.
Proof.
  split_and!; [constructor|constructor|].
  intros i Hi. by apply elem_of_nil in Hi.
Qed.

Lemma consistent_remove repository w :
  consistent w → consistent (onStore (remove repository) w).
Proof.
  intros (Hlt & Hnd & Hst). split_and!.
  - cbn [onStore store CloningRepositoryID].
    apply Forall_forall. intros r Hr. rewrite Forall_forall in Hlt.
    apply Hlt. eapply elem_of_sublist; [exact Hr|apply remove_sublist].
  - cbn [onStore store]. unfold liveIds.
    eapply sublist_NoDup; [exact Hnd|].
    apply fmap_sublist, remove_sublist.
  - cbn [onStore store]. intros i [Hi Hne]%remove_liveIds; [|done].
    rewrite remove_stateByID, lookup_delete_ne by done. by apply Hst.
Qed.

Lemma consistent_step w a : consistent w → consistent (step w a).
Proof.
  intros Hw. pose proof Hw as (Hlt & Hnd & Hst).
  destruct a as [url path|path url|r progress parsed|r outcome|r];
    cbn [step].
  - (* clone *)
    unfold consistent, liveIds.
    rewrite clone_repositories, clone_stateByID, clone_counter, clone_fst.
    rewrite fmap_app. cbn [fmap list_fmap id].
    split_and!.
    + apply Forall_app. split.
      * eapply Forall_impl; [exact Hlt|]. intros r Hr. simpl in *. lia.
      * repeat constructor. simpl. lia.
    + apply NoDup_app. split_and!; [done| |].
      * intros i (r & -> & Hr)%list_elem_of_fmap Hi.
        apply list_elem_of_singleton in Hi.
        rewrite Forall_forall in Hlt. specialize (Hlt r Hr).
        simpl in *. lia.
      * apply NoDup_singleton.
    + intros i. rewrite elem_of_app, list_elem_of_singleton.
      intros [Hi| ->].
      * destruct (decide (CloningRepositoryID w = i)) as [->|Hne].
        -- rewrite lookup_insert_eq. by eexists.
        -- rewrite lookup_insert_ne by done. by apply Hst.
      * rewrite lookup_insert_eq. by eexists.
  - (* a constructor call elsewhere *)
    unfold newCloningRepository. cbn [snd store CloningRepositoryID].
    split_and!; [|done|done].
    eapply Forall_impl; [exact Hlt|]. intros r Hr. simpl in *. lia.
  - (* a progress callback *)
    unfold consistent, liveIds, onStore. cbn [store CloningRepositoryID].
    rewrite cloneProgress_repositories, cloneProgress_stateByID.
    split_and!; [done|done|]. intros i Hi.
    destruct (decide (id r = i)) as [->|Hne].
    + rewrite lookup_insert_eq. by eexists.
    + rewrite lookup_insert_ne by done. by apply Hst.
  - (* settling *)
    destruct outcome as [[]|e]; cbn [cloneSettled fst].
    + by apply consistent_remove.
    + by destruct w.
  - by apply consistent_remove.
Qed.

Lemma consistent_run w actions : consistent w → consistent (run w actions).
Proof.
  unfold run. revert w.
  induction actions as [|a actions IH]; intros w Hw; [done|].
  simpl. by apply IH, consistent_step.
Qed.

(** The counter never goes down. *)
Lemma counter_step w a :
  CloningRepositoryID w ≤ CloningRepositoryID (step w a).
Proof. destruct a; simpl; lia. Qed.

Lemma counter_run w actions :
  CloningRepositoryID w ≤ CloningRepositoryID (run w actions).
Proof.
  unfold run. revert w.
  induction actions as [|a actions IH]; intros w; simpl; [lia|].
  etrans; [apply (counter_step w a)|apply IH].
Qed.

(** *** The two structures *)

Lemma agree_remove repository w :
  consistent w → agree (store w) →
  agree (remove repository (store w)).
Proof.
  intros (_ & Hnd & _) Hag i.
  rewrite remove_liveIds by done. rewrite remove_stateByID.
  rewrite <- (Hag i). destruct (decide (id repository = i)) as [<-|Hne].
  - rewrite lookup_delete_eq. split; [by intros [? [=]]|by intros [_ ?]].
  - rewrite lookup_delete_ne by done. split; [done|by intros [? _]].
Qed.

Lemma agree_step w a :
  consistent w → agree (store w) →
  match a with
  | Progress repository _ _ => id repository ∈ liveIds (store w)
  | _ => True
  end →
  agree (store (step w a)).
Proof.
  intros Hw Hag Hguard.
  destruct a as [url path|path url|r progress parsed|r outcome|r];
    cbn [step].
  - intros i. unfold liveIds.
    rewrite clone_repositories, clone_stateByID, clone_fst.
    rewrite fmap_app, elem_of_app. cbn [fmap list_fmap id].
    rewrite list_elem_of_singleton, <- (Hag i).
    destruct (decide (CloningRepositoryID w = i)) as [->|Hne].
    + rewrite lookup_insert_eq. split; [by right|by eexists].
    + rewrite lookup_insert_ne by done. split; [by left|].
      by intros [?|?].
  - done.
  - intros i. unfold liveIds, onStore. cbn [store].
    rewrite cloneProgress_repositories, cloneProgress_stateByID.
    fold (liveIds (store w)). rewrite <- (Hag i).
    destruct (decide (id r = i)) as [<-|Hne].
    + rewrite lookup_insert_eq. split; [|by eexists].
      intros _. by apply Hag.
    + by rewrite lookup_insert_ne.
  - destruct outcome as [[]|e]; cbn [cloneSettled fst onStore store];
      [by apply agree_remove|done].
  - by apply agree_remove.
Qed.

Lemma agree_run actions w :
  consistent w → agree (store w) → progressOnlyWhileLive w actions →
  agree (store (run w actions)).
Proof.
  unfold run. revert w.
  induction actions as [|a actions IH]; intros w Hw Hag Hguard; [done|].
  destruct Hguard as [Ha Hrest]. simpl. apply IH; [|by apply agree_step|done].
  by apply consistent_step.
Qed.

(** C4, as the code has it.  After every sequence of steps from the
    start ([clone], constructor calls, progress callbacks, settlings,
    [remove]), every repository of the live list has an entry in the
    state map.  The converse, and so the agreement of the two
    structures, holds after the sequences in which every progress
    callback runs while its repository is in the live list. *)
Theorem structures_agree (actions : list Action) :
  (∀ r, r ∈ repositories (store (run initial actions)) →
        is_Some (getRepositoryState r (store (run initial actions)))) ∧
  (progressOnlyWhileLive initial actions →
   agree (store (run initial actions))).
Proof.
  split.
  - intros r Hr.
    destruct (consistent_run initial actions consistent_initial)
      as (_ & _ & Hst).
    apply Hst. unfold liveIds. apply list_elem_of_fmap. by exists r.
  - intros Hguard. apply agree_run; [apply consistent_initial| |done].
    intros i. simpl. rewrite lookup_empty. split; [by intros [? [=]]|].
    by intros ?%elem_of_nil.
Qed.

(** C7.  In every state the store can reach, [remove] returns for every
    repository, tracked or not, and emits one [did-update].  It leaves
    the list and the map as they are when the repository is in neither;
    after it the repository is in neither; and a second [remove] of the
    same repository changes neither, and emits one more [did-update]. *)
Theorem remove_idempotent (actions : list Action)
    (repository : CloningRepository) :
  let s := store (run initial actions) in
  let s' := remove repository s in
  emitter s' = "did-update" :: emitter s ∧
  ((id repository ∉ liveIds s) → getRepositoryState repository s = None →
   _repositories s' = _repositories s ∧ stateByID s' = stateByID s) ∧
  (id repository ∉ liveIds s') ∧
  getRepositoryState repository s' = None ∧
  _repositories (remove repository s') = _repositories s' ∧
  stateByID (remove repository s') = stateByID s' ∧
  emitter (remove repository s') = "did-update" :: emitter s'.
Proof.
  intros s s'.
  destruct (consistent_run initial actions consistent_initial)
    as (_ & Hnd & _). fold s in Hnd.
  assert (Hgone : id repository ∉ liveIds s').
  { intros [_ Hne]%remove_liveIds; done. }
  split_and!; try done.
  - intros Hnot Hnone. split.
    + destruct (remove_repositories repository s)
        as [[_ Heq]|(before & r & after & Heq & Hid & _)]; [done|].
      destruct Hnot. unfold liveIds. rewrite Heq, fmap_app, elem_of_app.
      right. rewrite <- Hid. by left.
    + subst s'. rewrite remove_stateByID. by apply delete_id.
  - subst s'. unfold getRepositoryState.
    rewrite remove_stateByID. apply lookup_delete_eq.
  - destruct (remove_repositories repository s')
      as [[_ Heq]|(before & r & after & Heq & Hid & _)]; [done|].
    destruct Hgone. unfold liveIds. rewrite Heq, fmap_app, elem_of_app.
    right. rewrite <- Hid. by left.
  - rewrite remove_stateByID. subst s'. rewrite remove_stateByID.
    apply delete_id, lookup_delete_eq.
Qed.

(** C9.  The id of a repository created by [clone] is the value of the
    counter, which the creation increments.  So two calls of [clone] in
    a row, the second made before anything of the first has settled,
    give two repositories with different ids, both in the live list, each
    with its own entry in the state map, and a progress callback of one
    does not touch the entry of the other.  Whatever happens after the
    first call, a later [clone] gets a larger id. *)
Theorem clone_ids_distinct (w : World) (url1 path1 url2 path2 : string) :
  let c1 := clone url1 path1 w in
  let c2 := clone url2 path2 (snd c1) in
  let r1 := fst c1 in
  let r2 := fst c2 in
  let s := store (snd c2) in
  id r1 = CloningRepositoryID w ∧
  id r2 = id r1 + 1 ∧
  id r1 ≠ id r2 ∧
  r1 ∈ repositories s ∧
  r2 ∈ repositories s ∧
  getRepositoryState r1 s = Some (mkState ("Cloning into " +:+ path1) None) ∧
  getRepositoryState r2 s = Some (mkState ("Cloning into " +:+ path2) None) ∧
  (∀ progress parsed,
     getRepositoryState r2 (cloneProgress r1 progress parsed s)
       = getRepositoryState r2 s ∧
     getRepositoryState r1 (cloneProgress r2 progress parsed s)
       = getRepositoryState r1 s) ∧
  (∀ between url path,
     id r1 < id (fst (clone url path (run (snd c1) between)))).
Proof.
  intros c1 c2 r1 r2 s.
  assert (H1 : id r1 = CloningRepositoryID w) by done.
  assert (H2 : id r2 = id r1 + 1) by done.
  assert (Hne : id r1 ≠ id r2) by lia.
  unfold repositories, getRepositoryState. subst s c2.
  rewrite clone_repositories, clone_stateByID. fold r2.
  subst c1. rewrite clone_repositories, clone_stateByID. fold r1.
  split_and!; try done.
  - apply elem_of_app. left. apply elem_of_app. right. by left.
  - apply elem_of_app. right. by left.
  - rewrite lookup_insert_ne by done. by rewrite lookup_insert_eq.
  - by rewrite lookup_insert_eq.
  - intros progress parsed. rewrite !cloneProgress_stateByID.
    cbn [stateByID]. split; by rewrite (lookup_insert_ne _ _ _ _) by done.
  - intros between url path. rewrite clone_fst. cbn [id].
    pose proof (counter_run (snd (clone url1 path1 w)) between) as Hmono.
    rewrite clone_counter in Hmono. lia.
Qed.

(** *** Settling *)

(** When the clone resolves, the repository leaves the list and the
    map, and one [did-update] is emitted. *)
Lemma cloneSettled_resolved actions url path :
  let c := clone url path (run initial actions) in
  let r := fst c in
  let settled := cloneSettled r (Resolved tt) (store (snd c)) in
  snd settled = Resolved tt ∧
  (r ∉ repositories (fst settled)) ∧
  getRepositoryState r (fst settled) = None ∧
  emitter (fst settled) = "did-update" :: emitter (store (snd c)).
Proof.
  intros c r settled. subst settled. cbn [cloneSettled fst snd].
  assert (Hc : consistent (snd c)).
  { apply (consistent_step _ (Clone url path)), consistent_run,
      consistent_initial. }
  destruct Hc as (_ & Hnd & _).
  split_and!; [done| | |done].
  - intros Hin. unfold repositories in Hin.
    assert (Hid : id r ∈ liveIds (remove r (store (snd c)))).
    { unfold liveIds. apply list_elem_of_fmap. by exists r. }
    apply remove_liveIds in Hid as [_ Hid]; done.
  - unfold getRepositoryState. rewrite remove_stateByID.
    apply lookup_delete_eq.
Qed.

(** C1, where the code departs from it.  When the promise of
    [LocalGitOperations.clone] rejects, the handler given to [.then] does
    not run: the store is left as it was, with the repository in the
    live list and its entry in the state map, no [did-update] is
    emitted, and the rejection is passed on. *)
Theorem cloneSettled_rejected_keeps_repository (w : World)
    (url path : string) (e : Error) :
  let c := clone url path w in
  let r := fst c in
  let s := store (snd c) in
  let settled := cloneSettled r (Rejected e) s in
  snd settled = Rejected e ∧
  fst settled = s ∧
  r ∈ repositories (fst settled) ∧
  getRepositoryState r (fst settled)
    = Some (mkState ("Cloning into " +:+ path) None) ∧
  emitter (fst settled) = emitter s.
Proof.
  intros c r s settled. subst settled. cbn [cloneSettled fst snd].
  split_and!; try done.
  - unfold repositories. subst s c. rewrite clone_repositories.
    rewrite elem_of_app, list_elem_of_singleton. by right.
  - unfold getRepositoryState. subst s c. rewrite clone_stateByID.
    by rewrite lookup_insert_eq.
Qed.

Import Examples.

Lemma structures_agree_witness :
  progressOnlyWhileLive initial orderlyRun ∧
  agree (store (run initial orderlyRun)).
Proof.
  assert (Hlive : progressOnlyWhileLive initial orderlyRun).
  { cbn. split_and!; try exact I.
    apply (bool_decide_unpack _). vm_compute. exact I. }
  split; [exact Hlive|].
  exact (proj2 (structures_agree orderlyRun) Hlive).
Defined.

(** Against C4 as it is worded: a clone, its removal by hand, then a
    line of progress of the process that goes on.  The state map has an
    entry for id 1 and the live list is empty. *)
Lemma late_progress_breaks_agreement :
  liveIds (store (run initial lateProgressRun)) = [] ∧
  getRepositoryState firstClone (store (run initial lateProgressRun))
    = Some (mkState "Receiving objects:  10% (1/10)" None) ∧
  ¬ agree (store (run initial lateProgressRun)).
Proof.
  assert (Hl : liveIds (store (run initial lateProgressRun)) = [])
    by (vm_compute; reflexivity).
  assert (Hs : getRepositoryState firstClone
                 (store (run initial lateProgressRun))
               = Some (mkState "Receiving objects:  10% (1/10)" None))
    by (vm_compute; reflexivity).
  split_and!; [done|done|].
  intros Hag. specialize (Hag 1). rewrite Hl in Hag.
  unfold getRepositoryState in Hs. cbn [id firstClone] in Hs.
  rewrite Hs in Hag. destruct Hag as [Hag _].
  by apply elem_of_nil in Hag.
Qed.

End CloningRepositoriesFacts.

(** ** More on the cloning store *)
Module StoreFacts.
Import Async CloningRepositories CloningRepositoriesFacts Runs.

(** *** The order of the live list *)

Lemma StronglySorted_sublist {A} (R : relation A) (l1 l2 : list A) :
  sublist l1 l2 → StronglySorted R l2 → StronglySorted R l1.
Proof.
  induction 1 as [|x l1 l2 Hsub IH|x l1 l2 Hsub IH]; intros Hs; [done| |].
  - apply StronglySorted_inv in Hs as [Hs Hx].
    constructor; [by apply IH|].
    apply Forall_forall. intros y Hy. rewrite Forall_forall in Hx.
    apply Hx. by eapply elem_of_sublist.
  - apply StronglySorted_inv in Hs as [Hs _]. by apply IH.
Qed.

Lemma StronglySorted_snoc {A} (R : relation A) (l : list A) (x : A) :
  StronglySorted R l → Forall (λ y, R y x) l → StronglySorted R (l ++ [ x ]).
Proof.
  induction 1 as [|y l Hs IH Hy]; intros Hx; simpl.
  - repeat constructor.
  - apply Forall_cons in Hx as [Hyx Hx].
    constructor; [by apply IH|]. apply Forall_app. split; [done|].
    by repeat constructor.
Qed.

Lemma ordered_sublist w s' :
  sublist (_repositories s') (_repositories (store w)) →
  ordered w → ordered (mkWorld (CloningRepositoryID w) s').
Proof.
  intros Hsub (Hc & Hs & Hb).
  assert (Hids : sublist (liveIds s') (liveIds (store w)))
    by by apply fmap_sublist.
  split_and!; [done| |].
  - by eapply StronglySorted_sublist.
  - apply Forall_forall. intros i Hi. rewrite Forall_forall in Hb.
    apply Hb. by eapply elem_of_sublist.
Qed.

Lemma ordered_step w a : ordered w → ordered (step w a).
Proof.
  intros Hw. pose proof Hw as (Hc & Hs & Hb).
  destruct a as [url path|path url|r progress parsed|r outcome|r];
    cbn [step].
  - unfold ordered, liveIds.
    rewrite clone_repositories, clone_counter, clone_fst.
    rewrite fmap_app. cbn [fmap list_fmap id].
    split_and!; [lia| |].
    + apply StronglySorted_snoc; [done|].
      eapply Forall_impl; [exact Hb|]. intros i Hi. simpl in *. lia.
    + apply Forall_app. split.
      * eapply Forall_impl; [exact Hb|]. intros i Hi. simpl in *. lia.
      * repeat constructor; simpl; lia.
  - unfold ordered, newCloningRepository. cbn [snd store CloningRepositoryID].
    split_and!; [lia|done|].
    eapply Forall_impl; [exact Hb|]. intros i Hi. simpl in *. lia.
  - unfold onStore. apply ordered_sublist; [|done].
    by rewrite cloneProgress_repositories.
  - unfold onStore. apply ordered_sublist; [|done].
    destruct outcome as [[]|e]; cbn [cloneSettled fst];
      [apply remove_sublist|done].
  - unfold onStore. apply ordered_sublist; [|done]. apply remove_sublist.
Qed.

(** The getter [repositories] lists the clones in the order of their
    creation: in every state the store can reach, the ids of the list go
    up strictly from its first to its last element, and each is at
    least 1 and below the counter. *)
Theorem repositories_in_creation_order (actions : list Action) :
  let w := run initial actions in
  StronglySorted Z.lt (id <$> repositories (store w)) ∧
  Forall (λ r, 1 ≤ id r < CloningRepositoryID w) (repositories (store w)).
Proof.
  intros w.
  assert (Hw : ordered w).
  { subst w. unfold run.
    assert (H0 : ordered initial)
      by (split_and!; [done|constructor|constructor]).
    revert H0. generalize initial.
    induction actions as [|a actions IH]; intros w0 H0; [done|].
    simpl. by apply IH, ordered_step. }
  destruct Hw as (_ & Hs & Hb). split; [done|].
  unfold liveIds in Hb. by apply Forall_fmap in Hb.
Qed.

(** *** Notifications and the counter *)

Lemma step_emitter w a :
  emitter (store (step w a))
  = (if notifies a then [ "did-update" ] else []) ++ emitter (store w).
Proof.
  destruct a as [url path|path url|r progress parsed|r outcome|r];
    cbn [step notifies].
  - apply clone_emitter.
  - done.
  - cbn [onStore store]. apply cloneProgress_emitter.
  - by destruct outcome as [[]|e].
  - done.
Qed.

(** The only event the store ever emits is [did-update], once for each
    call of [clone], each progress callback, each call of [remove] and
    each clone that resolves, and never for a clone that rejects or for a
    constructor call: after a run the emitter has emitted one
    [did-update] per such step on top of what it had emitted before. *)
Theorem one_update_per_step (w : World) (actions : list Action) :
  emitter (store (run w actions))
  = replicate (length (List.filter notifies actions)) "did-update"
      ++ emitter (store w).
Proof.
  unfold run. revert w.
  induction actions as [|a actions IH]; intros w; [done|].
  cbn [foldl List.filter]. rewrite IH, step_emitter.
  destruct (notifies a); [|done].
  cbn [length app]. rewrite replicate_S_end, <- (assoc_L (++)). done.
Qed.

(** The counter goes up by one for each constructor call, those of
    [clone] and those made elsewhere, and no other step changes it: ids
    are never given twice, whatever is removed in between. *)
Theorem counter_counts_creations (w : World) (actions : list Action) :
  CloningRepositoryID (run w actions)
  = CloningRepositoryID w + Z.of_nat (length (List.filter creates actions)).
Proof.
  unfold run. revert w.
  induction actions as [|a actions IH]; intros w; [simpl; lia|].
  cbn [foldl List.filter]. rewrite IH.
  destruct a; cbn [creates step length];
    rewrite ?clone_counter; cbn [newCloningRepository snd onStore
                                 CloningRepositoryID]; lia.
Qed.

(** *** What [remove] leaves alone *)

(** [remove] touches one repository only: in any state, the entries of
    the state map for the other ids are as before, the repositories of
    the list with another id are as before and in the same order, and at
    most one element leaves the list. *)
Theorem remove_leaves_others (repository : CloningRepository)
    (s : CloningRepositoriesStore) :
  (∀ i, i ≠ id repository →
        stateByID (remove repository s) !! i = stateByID s !! i) ∧
  List.filter (λ r, negb (id r =? id repository))
    (_repositories (remove repository s))
  = List.filter (λ r, negb (id r =? id repository)) (_repositories s) ∧
  (length (_repositories s) ≤ length (_repositories (remove repository s)) + 1)%nat.
Proof.
  split_and!.
  - intros i Hi. rewrite remove_stateByID. by apply lookup_delete_ne.
  - destruct (remove_repositories repository s)
      as [[_ ->]|(before & r & after & -> & Hid & _ & ->)]; [done|].
    rewrite !List.filter_app. cbn [List.filter].
    by rewrite Hid, Z.eqb_refl.
  - destruct (remove_repositories repository s)
      as [[_ ->]|(before & r & after & -> & _ & _ & ->)]; [lia|].
    rewrite !length_app. simpl. lia.
Qed.

(** *** Progress replaces the state *)

(** A progress callback replaces the state of its repository as a whole:
    after two callbacks the state is the line and the value of the second
    (a value the first had is not kept when the second has none), the map
    is what the second alone would have made it, the list is untouched
    and two [did-update] were emitted. *)
Theorem progress_replaces_state (repository : CloningRepository)
    (line1 line2 : string) (parsed1 parsed2 : option float)
    (s : CloningRepositoriesStore) :
  let s2 :=
    cloneProgress repository line2 parsed2
      (cloneProgress repository line1 parsed1 s) in
  getRepositoryState repository s2 = Some (mkState line2 parsed2) ∧
  stateByID s2 = stateByID (cloneProgress repository line2 parsed2 s) ∧
  _repositories s2 = _repositories s ∧
  emitter s2 = "did-update" :: "did-update" :: emitter s.
Proof.
  intros s2. subst s2. unfold getRepositoryState.
  rewrite !cloneProgress_stateByID, !cloneProgress_repositories,
    !cloneProgress_emitter.
  split_and!; [by rewrite lookup_insert_eq|by rewrite insert_insert_eq|done
              |done].
Qed.

(** *** A clone that resolves *)

(** A clone that resolves leaves no trace: from a state the store can
    reach in which the state map has no entry yet for the next id, [clone]
    followed by the fulfilment of its promise gives back the list and the
    map there were, and two [did-update] were emitted. *)
Theorem clone_then_resolve_restores (actions : list Action)
    (url path : string) :
  let w := run initial actions in
  stateByID (store w) !! CloningRepositoryID w = None →
  let c := clone url path w in
  let s' := fst (cloneSettled (fst c) (Resolved tt) (store (snd c))) in
  _repositories s' = _repositories (store w) ∧
  stateByID s' = stateByID (store w) ∧
  emitter s' = "did-update" :: "did-update" :: emitter (store w).
Proof.
  intros w Hfresh c s'. subst s'. cbn [cloneSettled fst].
  destruct (consistent_run initial actions consistent_initial)
    as (Hlt & _ & _). fold w in Hlt.
  split_and!.
  - destruct (remove_repositories (fst c) (store (snd c)))
      as [[Hnot _]|(before & r & after & Heq & Hid & Hnot & ->)].
    + destruct Hnot. unfold liveIds. subst c. rewrite clone_repositories.
      rewrite fmap_app. apply elem_of_app. right. by left.
    + subst c. rewrite clone_repositories in Heq.
      destruct after as [|r' after _] using rev_ind.
      * apply app_inj_tail in Heq as [-> _]. by rewrite app_nil_r.
      * rewrite app_comm_cons, (assoc_L (++)) in Heq.
        apply app_inj_tail in Heq as [Heq _].
        rewrite Forall_forall in Hlt.
        assert (Hr : r ∈ _repositories (store w)).
        { rewrite Heq. apply elem_of_app. right. by left. }
        specialize (Hlt r Hr). rewrite Hid, clone_fst in Hlt.
        simpl in Hlt. lia.
  - rewrite remove_stateByID. subst c. rewrite clone_stateByID.
    rewrite delete_insert_eq. by apply delete_id.
  - rewrite remove_emitter. subst c. by rewrite clone_emitter.
Qed.

Lemma clone_then_resolve_restores_witness :
  let w := run initial Examples.orderlyRun in
  stateByID (store w) !! CloningRepositoryID w = None ∧
  let c := clone "https://example.com/c.git" "/work/c" w in
  let s' := fst (cloneSettled (fst c) (Resolved tt) (store (snd c))) in
  _repositories s' = _repositories (store w) ∧
  stateByID s' = stateByID (store w) ∧
  emitter s' = "did-update" :: "did-update" :: emitter (store w).
Proof.
  split; [vm_compute; reflexivity|].
  exact (clone_then_resolve_restores Examples.orderlyRun
           "https://example.com/c.git" "/work/c" eq_refl).
Defined.

End StoreFacts.

(** ** More on [fetch], [fetchRefspec] and [fastForwardBranches] *)
Module RunFacts.
Import Async Fetch FetchFacts Stream.

Section Facts.
Context {IGitAccount : Type}.
Variable W : Collaborators IGitAccount.

(** The progress stream keeps the order of the items: the calls of the
    callback are those for the items let through, one each, in the order
    of the stream, every one with kind [fetch], the title
    [Fetching <remote>] and the remote name. *)
Theorem streamCalls_keeps_order (remote : IRemote.t)
    (items : list GitProgress) :
  streamCalls remote items
  = (λ p, Called (forwarded remote p)) <$> List.filter kept items.
Proof.
  induction items as [|p items IH]; [done|].
  change (streamCalls remote (p :: items))
    with (fst (fetchProgressHandler remote p) ++ streamCalls remote items).
  rewrite IH. cbn [List.filter]. unfold fetchProgressHandler.
  destruct p as [v d|v text]; cbn [kept]; [done|].
  by destruct (JS.startsWith text _).
Qed.

Lemma getFetchArgs_tokens repository remote account progressCallback
    networkArguments :
  gitNetworkArguments W repository account = Resolved networkArguments →
  getFetchArgs W repository remote account progressCallback
  = ([], Resolved (networkArguments ++
                     fetchTokens progressCallback
                       (enableRecurseSubmodulesFlag W) remote)).
Proof.
  intros Hnet. unfold getFetchArgs, fetchTokens. rewrite Hnet.
  by destruct (enableRecurseSubmodulesFlag W), progressCallback.
Qed.

(** A whole run of [fetch], once the collaborators it awaits have
    resolved.  With a callback: the initial event, then the process,
    started with [--progress], then the calls for the items let through.
    Without a callback: the process alone, started without [--progress],
    and no call.  In both cases one process is started, and the promise
    resolves when the exit code is 0 and rejects with
    [ExternalProcessError] for any other code, 128 included. *)
Theorem fetch_run (repository : Repository.t)
    (account : option IGitAccount) (remote : IRemote.t)
    (progressCallback : bool) (env : list (string * string))
    (networkArguments : list string) :
  envForRemoteOperation W account (IRemote.url remote) = Resolved env →
  (progressCallback = true → progressSetup W = Resolved tt) →
  gitNetworkArguments W repository account = Resolved networkArguments →
  let args :=
    networkArguments ++
    fetchTokens progressCallback (enableRecurseSubmodulesFlag W)
      (IRemote.name remote) in
  let result := spawn W args (Repository.path repository) in
  fetch W repository account remote progressCallback
  = ((if progressCallback then [ Called (initialProgress remote) ] else [])
       ++ Spawned args (Repository.path repository) "fetch"
       :: (if progressCallback
           then (λ p, Called (forwarded remote p))
                  <$> List.filter kept (items result)
           else []),
     if bool_decide (exitCode result = 0) then Resolved tt
     else Rejected (ExternalProcessError (exitCode result))).
Proof.
  intros Henv Hsetup Hnet args result. unfold fetch.
  rewrite Henv. unfold executionOptionsWithProgress.
  pose proof (getFetchArgs_tokens repository (IRemote.name remote) account
                progressCallback networkArguments Hnet) as Hargs.
  fold args in Hargs.
  assert (Hcode : bool_decide (exitCode result ∈ ({[ 0 ]} : gset Z))
                  = bool_decide (exitCode result = 0)).
  { apply bool_decide_ext. by rewrite elem_of_singleton. }
  destruct progressCallback; [rewrite (Hsetup eq_refl)|];
    cbn [await mbind async_bind bind mret async_ret ret emit app];
    rewrite Hargs;
    cbn [await mbind async_bind bind mret async_ret ret emit app];
    unfold git;
    cbn [await mbind async_bind bind mret async_ret ret emit app
         processCallback successExitCodes]; fold result.
  - rewrite for_each_handler, streamCalls_keeps_order, Hcode.
    cbn [await mbind async_bind bind mret async_ret ret emit app].
    destruct (bool_decide (exitCode result = 0)); simpl;
      by rewrite ?app_nil_r.
  - rewrite Hcode.
    by destruct (bool_decide (exitCode result = 0)).
Qed.

(** When the environment of the remote operation cannot be set up,
    [fetch] and [fetchRefspec] reject with the error of the setup and do
    nothing else: the callback is not called, not even with the initial
    event, and no process is started. *)
Theorem rejected_environment_stops_fetch (repository : Repository.t)
    (account : option IGitAccount) (remote : IRemote.t) (e : Error) :
  envForRemoteOperation W account (IRemote.url remote) = Rejected e →
  (∀ progressCallback,
     fetch W repository account remote progressCallback = ([], Rejected e)) ∧
  (∀ refspec,
     fetchRefspec W repository account remote refspec = ([], Rejected e)).
Proof.
  intros Henv. split.
  - intros progressCallback. unfold fetch. by rewrite Henv.
  - intros refspec. unfold fetchRefspec. by rewrite Henv.
Qed.

(** When the network arguments cannot be computed, no process is
    started; [fetch] with a callback has by then sent the initial event,
    and nothing more is sent.  The error is passed on. *)
Theorem rejected_network_arguments_stop_fetch (repository : Repository.t)
    (account : option IGitAccount) (remote : IRemote.t)
    (env : list (string * string)) (e : Error) :
  envForRemoteOperation W account (IRemote.url remote) = Resolved env →
  progressSetup W = Resolved tt →
  gitNetworkArguments W repository account = Rejected e →
  fetch W repository account remote true
    = ([ Called (initialProgress remote) ], Rejected e) ∧
  fetch W repository account remote false = ([], Rejected e) ∧
  (∀ refspec,
     fetchRefspec W repository account remote refspec = ([], Rejected e)).
Proof.
  intros Henv Hsetup Hnet. split_and!.
  - unfold fetch. rewrite Henv.
    unfold executionOptionsWithProgress, getFetchArgs.
    by rewrite Hsetup, Hnet.
  - unfold fetch, getFetchArgs. by rewrite Henv, Hnet.
  - intros refspec. unfold fetchRefspec. by rewrite Henv, Hnet.
Qed.

End Facts.

Import Examples MoreExamples.

Lemma fetch_run_witness :
  fetch sampleCollaborators sampleRepository None origin true
  = ([ Called (initialProgress origin);
       Spawned [ "-c"; "credential.helper="; "fetch"; "--progress";
                 "--prune"; "--recurse-submodules=on-demand"; "origin" ]
         "/work/desktop" "fetch";
       Called (forwarded origin
                 (context 0%float "remote: Counting objects: 52"));
       Called (forwarded origin
                 (progress 0.5%float "Receiving objects:  50% (26/52)")) ],
     Rejected (ExternalProcessError 128)).
Proof.
  exact (fetch_run sampleCollaborators sampleRepository None origin true
           [ ("GIT_TERMINAL_PROMPT", "0") ] [ "-c"; "credential.helper=" ]
           eq_refl (λ _, eq_refl) eq_refl).
Defined.

Lemma rejected_environment_stops_fetch_witness :
  (∀ progressCallback,
     fetch noEnvironment sampleRepository None origin progressCallback
     = ([], Rejected (CollaboratorError "no proxy"))) ∧
  (∀ refspec,
     fetchRefspec noEnvironment sampleRepository None origin refspec
     = ([], Rejected (CollaboratorError "no proxy"))).
Proof.
  exact (rejected_environment_stops_fetch noEnvironment sampleRepository
           None origin (CollaboratorError "no proxy") eq_refl).
Defined.

Lemma rejected_network_arguments_stop_fetch_witness :
  fetch noNetworkArguments sampleRepository None origin true
    = ([ Called (initialProgress origin) ],
       Rejected (CollaboratorError "no account")) ∧
  fetch noNetworkArguments sampleRepository None origin false
    = ([], Rejected (CollaboratorError "no account")) ∧
  (∀ refspec,
     fetchRefspec noNetworkArguments sampleRepository None origin refspec
     = ([], Rejected (CollaboratorError "no account"))).
Proof.
  exact (rejected_network_arguments_stop_fetch noNetworkArguments
           sampleRepository None origin [ ("GIT_TERMINAL_PROMPT", "0") ]
           (CollaboratorError "no account") eq_refl eq_refl eq_refl).
Defined.

Lemma fetchRefspec_rejects_otherwise_witness :
  snd (fetchRefspec failingCollaborators sampleRepository None origin
         "refs/pull/1/head")
  = Rejected (ExternalProcessError 1).
Proof.
  refine (fetchRefspec_rejects_otherwise failingCollaborators
            sampleRepository None origin "refs/pull/1/head"
            [ ("GIT_TERMINAL_PROMPT", "0") ] [ "-c"; "credential.helper=" ]
            eq_refl eq_refl _ _); vm_compute; discriminate.
Defined.

Lemma fastForwardBranches_resolves_witness :
  fastForwardBranches failingCollaborators sampleRepository [ main; dev ]
  = ([ Spawned [ "-c"; "fetch.output=full"; "-c"; "core.abbrev=40"; "fetch";
                 "."; "--show-forced-updates"; "-v";
                 "refs/remotes/origin/main:refs/heads/main";
                 "refs/remotes/origin/dev:refs/heads/dev" ]
         "/work/desktop" "fastForwardBranches" ],
     Resolved (parseCombinedOutput plainOutput [ main; dev ])).
Proof.
  exact (FastForwardFacts.fastForwardBranches_resolves failingCollaborators
           sampleRepository [ main; dev ] (or_intror eq_refl)).
Defined.

(** Against C10 as it is worded: [fetch] is called with a callback, the
    setup it awaits first rejects (the environment, or the options with
    progress), and the callback is not called at all. *)
Lemma fetch_rejected_setup_sends_nothing :
  fetch noEnvironment sampleRepository None origin true
    = ([], Rejected (CollaboratorError "no proxy")) ∧
  fetch noProgressSetup sampleRepository None origin true
    = ([], Rejected (CollaboratorError "no lfs")).
Proof. split; vm_compute; reflexivity. Qed.

End RunFacts.

(** ** Splitting at one character *)
Module SplitFacts.
Import JS JSFacts.

(** [split] at a separator of one character, one character at a time. *)
Lemma split_cons (c a : ascii) (s : string) :
  split (String a s) (String c "")
  = if Ascii.eqb c a then "" :: split s (String c "")
    else match split s (String c "") with
         | piece :: pieces => String a piece :: pieces
         | [] => [ String a "" ]
         end.
Proof.
  unfold split. cbn [split_from String.prefix String.length].
  destruct (Ascii.eqb_spec c a) as [->|Hne].
  - destruct (ascii_dec a a); [|done]. by destruct s.
  - by destruct (ascii_dec c a).
Qed.

(** A string without the separator is its own single piece. *)
Lemma split_without_separator (c : ascii) (s : string) :
  indexOf s (String c "") < 0 → split s (String c "") = [ s ].
Proof.
  induction s as [|a s IH]; [done|].
  rewrite split_cons. cbn [indexOf String.prefix].
  destruct (Ascii.eqb_spec c a) as [->|Hne].
  - destruct (ascii_dec a a); [|done]. destruct s; simpl; lia.
  - destruct (ascii_dec c a); [done|].
    destruct (Z.ltb_spec (indexOf s (String c "")) 0); [|lia].
    intros _. by rewrite IH.
Qed.

(** The pieces of a concatenation around a separator are the pieces of
    the two sides. *)
Lemma split_app (c : ascii) (s1 s2 : string) :
  split (s1 +:+ String c s2) (String c "")
  = split s1 (String c "") ++ split s2 (String c "").
Proof.
  induction s1 as [|a s1 IH].
  - change ("" +:+ String c s2) with (String c s2).
    rewrite split_cons, Ascii.eqb_refl. done.
  - change (String a s1 +:+ String c s2)
      with (String a (s1 +:+ String c s2)).
    rewrite !split_cons, IH.
    destruct (Ascii.eqb c a); [done|].
    pose proof (split_from_nonempty (String c "") 0 s1) as Hne.
    unfold split. by destruct (split_from (String c "") 0 s1).
Qed.

(** A piece that begins with a character comes from a string that begins
    with it. *)
Lemma split_head_cons (c x : ascii) (s piece : string) (pieces : list string) :
  split s (String c "") = String x piece :: pieces →
  ∃ s', s = String x s'.
Proof.
  destruct s as [|a s]; [done|]. rewrite split_cons.
  destruct (Ascii.eqb c a); [done|].
  destruct (split s (String c "")); intros [= -> _]; by eexists.
Qed.

Lemma indexOf_cons (a : ascii) (s sep : string) :
  0 ≤ indexOf (String a s) sep
  ↔ String.prefix sep (String a s) = true ∨ 0 ≤ indexOf s sep.
Proof.
  cbn [indexOf]. destruct (String.prefix sep (String a s)).
  - split; [by left|lia].
  - pose proof (indexOf_lower s sep).
    destruct (Z.ltb_spec (indexOf s sep) 0);
      (split; [intros ?|intros [?|?]]); try done; try lia; by right.
Qed.

(** Two dots in a piece are two dots in the string that was split. *)
Lemma split_piece_range (c : ascii) (s piece : string) :
  piece ∈ split s (String c "") →
  0 ≤ indexOf piece ".." → 0 ≤ indexOf s "..".
Proof.
  revert piece. induction s as [|a s IH]; intros piece.
  - intros ->%list_elem_of_singleton. done.
  - rewrite split_cons. destruct (Ascii.eqb c a).
    + intros [->|Hin]%elem_of_cons Hp; [done|].
      apply indexOf_cons. right. by eapply IH.
    + destruct (split s (String c "")) as [|h t] eqn:Hs.
      { by destruct (split_from_nonempty (String c "") 0 s). }
      intros [->|Hin]%elem_of_cons Hp.
      * apply indexOf_cons in Hp as [Hp|Hp].
        -- apply indexOf_cons. left.
           cbn [String.prefix] in Hp. cbn [String.prefix].
           destruct (ascii_dec "." a); [|done].
           destruct h as [|x h]; [done|].
           destruct (split_head_cons _ _ _ _ _ Hs) as [s' ->].
           change (String.prefix "." (String x h))
             with (if ascii_dec "." x then String.prefix "" h else false)
             in Hp.
           change (String.prefix "." (String x s'))
             with (if ascii_dec "." x then String.prefix "" s' else false).
           destruct (ascii_dec "." x); [by destruct s'|done].
        -- apply indexOf_cons. right. apply (IH h); [by left|done].
      * apply indexOf_cons. right. apply (IH piece); [by right|done].
Qed.

End SplitFacts.

(** ** More on the parser of the fast-forward output *)
Module ParserFacts.
Import JS JSFacts SplitFacts Fetch FastForward FastForwardFacts Lines.

(** The branches returned are those some line of the loop reports. *)
Lemma parseCombinedOutput_lines combinedOutput branches :
  parseCombinedOutput combinedOutput branches
  = reported (outputLines combinedOutput) branches.
Proof.
  unfold parseCombinedOutput, reported, updatedBranches.
  apply filter_ext_in_bool. intros branch.
  apply eq_true_iff_eq. rewrite bool_decide_eq_true.
  rewrite foldl_recordLine_is_Some, lookup_empty.
  split; [intros [[? [=]]|?]; done|by right].
Qed.

(** The lines between a first line and a last line. *)
Lemma outputLines_framed header body trailer :
  indexOf header LF < 0 → indexOf trailer LF < 0 →
  outputLines (header +:+ LF +:+ body +:+ LF +:+ trailer) = split body LF.
Proof.
  intros Hh Ht. unfold outputLines, LF in *.
  change (String "010" "" +:+ body +:+ String "010" "" +:+ trailer)
    with (String "010" (body +:+ String "010" trailer)).
  rewrite !split_app, (split_without_separator _ header Hh),
    (split_without_separator _ trailer Ht).
  cbn [app splice_first tail]. unfold splice_last.
  by rewrite removelast_last.
Qed.

Lemma split_length_lineFeeds s :
  length (split s LF) = S (lineFeeds s).
Proof.
  unfold LF. induction s as [|a s IH]; [done|].
  rewrite split_cons. cbn [lineFeeds].
  destruct (Ascii.eqb "010" a); [simpl; by rewrite IH|].
  pose proof (split_from_nonempty (String "010" "") 0 s) as Hne.
  unfold split in *. by destruct (split_from (String "010" "") 0 s).
Qed.

Lemma reported_no_lines branches : reported [] branches = [].
Proof.
  unfold reported. induction branches as [|b branches IH]; [done|].
  simpl. exact IH.
Qed.

Lemma reported_none lines branches :
  (∀ name line, line ∈ lines → reportsUpdate name line = false) →
  reported lines branches = [].
Proof.
  intros Hnone. unfold reported.
  induction branches as [|b branches IH]; [done|].
  cbn [List.filter].
  assert (Hb : existsb (reportsUpdate (Branch.name b)) lines = false).
  { apply not_true_is_false.
    intros (line & Hin & Hr)%existsb_exists.
    rewrite (Hnone _ line) in Hr; [done|by apply list_elem_of_In]. }
  by rewrite Hb.
Qed.

(** A line that reports an update has two dots in it. *)
Lemma reportsUpdate_range name line :
  reportsUpdate name line = true → 0 ≤ indexOf line "..".
Proof.
  unfold reportsUpdate.
  destruct (pieces line) as [|first rest] eqn:Hp; [done|].
  intros [Hidx _]%andb_true_iff. apply Z.leb_le in Hidx.
  apply (split_piece_range " " line first); [|done].
  assert (Hin : In first (pieces line)) by (rewrite Hp; by left).
  unfold pieces in Hin. apply filter_In in Hin as [Hin _].
  by apply list_elem_of_In.
Qed.

Lemma elem_of_outputLines line combinedOutput :
  line ∈ outputLines combinedOutput → line ∈ split combinedOutput LF.
Proof.
  unfold outputLines, splice_last, splice_first.
  generalize (split combinedOutput LF). intros l Hin.
  assert (Htl : line ∈ tail l).
  { revert Hin. generalize (tail l). intros l'.
    induction l' as [|x l' IH]; [done|].
    destruct l' as [|y l']; [by intros ?%elem_of_nil|].
    cbn [removelast]. intros [->|Hin]%elem_of_cons; [by left|].
    right. by apply IH. }
  destruct l; [done|]. by right.
Qed.

Lemma first_and_last_line_ignored_lines header body trailer branches :
  indexOf header LF < 0 → indexOf trailer LF < 0 →
  parseCombinedOutput (header +:+ LF +:+ body +:+ LF +:+ trailer) branches
  = reported (split body LF) branches.
Proof.
  intros Hh Ht.
  by rewrite parseCombinedOutput_lines, outputLines_framed.
Qed.

(** The first and the last line of the output are not read, whatever
    they hold: when the output is a first line, a body and a last line,
    joined by line feeds, the branches returned are those a line of the
    body reports. *)
Theorem first_and_last_line_ignored (header body trailer : string)
    (branches : list Branch.t) :
  indexOf header LF < 0 → indexOf trailer LF < 0 →
  parseCombinedOutput (header +:+ LF +:+ body +:+ LF +:+ trailer) branches
  = reported (split body LF) branches.
Proof.
  intros Hh Ht.
  by rewrite parseCombinedOutput_lines, outputLines_framed.
Qed.

(** An output with at most one line feed, the empty output for one, has
    no line for the loop to read: no branch is returned. *)
Theorem short_output_returns_nothing (combinedOutput : string)
    (branches : list Branch.t) :
  (lineFeeds combinedOutput ≤ 1)%nat →
  parseCombinedOutput combinedOutput branches = [].
Proof.
  intros Hn. rewrite parseCombinedOutput_lines.
  pose proof (split_length_lineFeeds combinedOutput) as Hlen.
  unfold outputLines, splice_last, splice_first.
  destruct (split combinedOutput LF) as [|l1 [|l2 [|l3 ls]]];
    try apply reported_no_lines.
  simpl in Hlen. lia.
Qed.

(** An output without two dots in a row reports no update: no branch is
    returned. *)
Theorem no_range_returns_nothing (combinedOutput : string)
    (branches : list Branch.t) :
  indexOf combinedOutput ".." < 0 →
  parseCombinedOutput combinedOutput branches = [].
Proof.
  intros Hno. rewrite parseCombinedOutput_lines.
  apply reported_none. intros name line Hin.
  apply not_true_is_false. intros Hr%reportsUpdate_range.
  apply elem_of_outputLines in Hin.
  pose proof (split_piece_range "010" combinedOutput line Hin Hr). lia.
Qed.


(** The branches returned do not depend on the order of the lines:
    swapping two blocks of lines of the body changes nothing. *)
Theorem line_order_irrelevant (header block1 block2 trailer : string)
    (branches : list Branch.t) :
  indexOf header LF < 0 → indexOf trailer LF < 0 →
  parseCombinedOutput
    (header +:+ LF +:+ (block1 +:+ LF +:+ block2) +:+ LF +:+ trailer)
    branches
  = parseCombinedOutput
      (header +:+ LF +:+ (block2 +:+ LF +:+ block1) +:+ LF +:+ trailer)
      branches.
Proof.
  intros Hh Ht.
  rewrite !first_and_last_line_ignored_lines by done.
  unfold LF.
  change (String "010" "" +:+ block2) with (String "010" block2).
  change (String "010" "" +:+ block1) with (String "010" block1).
  rewrite !split_app. unfold reported.
  apply filter_ext_in_bool. intros branch.
  rewrite !existsb_app. apply orb_comm.
Qed.

Import Examples.

Lemma first_and_last_line_ignored_witness :
  parseCombinedOutput
    ("  3333333..4444444  refs/heads/dev  dev" +:+ LF +:+
     "  1111111..2222222  refs/heads/main  main" +:+ LF +:+ "")
    [ main; dev ]
  = reported (split "  1111111..2222222  refs/heads/main  main" LF)
      [ main; dev ].
Proof.
  exact (first_and_last_line_ignored
           "  3333333..4444444  refs/heads/dev  dev"
           "  1111111..2222222  refs/heads/main  main" ""
           [ main; dev ] eq_refl eq_refl).
Defined.

Lemma short_output_returns_nothing_witness :
  parseCombinedOutput
    ("  1111111..2222222  refs/heads/main  main" +:+ LF) [ main; dev ]
  = [].
Proof.
  exact (short_output_returns_nothing
           ("  1111111..2222222  refs/heads/main  main" +:+ LF)
           [ main; dev ] (le_n 1)).
Defined.

Lemma no_range_returns_nothing_witness :
  parseCombinedOutput
    ("From ." +:+ LF +:+
     " = [up to date]      refs/remotes/origin/main -> refs/heads/main"
     +:+ LF +:+
     " ! [rejected]        refs/remotes/origin/dev -> refs/heads/dev"
     +:+ LF)
    [ main; dev ]
  = [].
Proof.
  exact (no_range_returns_nothing
           ("From ." +:+ LF +:+
            " = [up to date]      refs/remotes/origin/main -> refs/heads/main"
            +:+ LF +:+
            " ! [rejected]        refs/remotes/origin/dev -> refs/heads/dev"
            +:+ LF)
           [ main; dev ] eq_refl).
Defined.


Lemma line_order_irrelevant_witness :
  parseCombinedOutput
    ("From ." +:+ LF +:+
     ("  1111111..2222222  refs/heads/main  main" +:+ LF +:+
      "  3333333..4444444  refs/heads/dev  dev") +:+ LF +:+ "")
    [ dev; main ]
  = parseCombinedOutput
      ("From ." +:+ LF +:+
       ("  3333333..4444444  refs/heads/dev  dev" +:+ LF +:+
        "  1111111..2222222  refs/heads/main  main") +:+ LF +:+ "")
      [ dev; main ].
Proof.
  exact (line_order_irrelevant "From ."
           "  1111111..2222222  refs/heads/main  main"
           "  3333333..4444444  refs/heads/dev  dev" ""
           [ dev; main ] eq_refl eq_refl).
Defined.

(** C2, as the code has it.  For every combined output made of a header
    line followed by a body whose last line is ended by a line feed, and
    every list of requested branches, [fastForwardBranches] returns, in
    the caller's order, exactly the requested branches whose name is the
    last token of a line of the body whose first token contains [..], the
    tokens being the pieces between spaces that are not empty.  The value
    returned holds the branches only: the new target of each returned
    branch is kept in the map [updatedBranches], where it is the second
    of the parts at [..] of the first token of the last line that reports
    the branch.  An output that is the header line alone gives no
    branch. *)
Theorem fastForward_updated_subset (header body : string)
    (branches : list Branch.t) :
  indexOf header LF < 0 →
  let combinedOutput := header +:+ LF +:+ body +:+ LF in
  parseCombinedOutput combinedOutput branches
    = reported (split body LF) branches ∧
  (∀ branch, branch ∈ parseCombinedOutput combinedOutput branches →
     ∃ before line after to,
       split body LF = before ++ line :: after ∧
       reportsUpdate (Branch.name branch) line = true ∧
       existsb (reportsUpdate (Branch.name branch)) after = false ∧
       targetOf line = Some to ∧
       updatedBranches combinedOutput !! Branch.name branch
         = Some (Some to)) ∧
  parseCombinedOutput (header +:+ LF) branches = [].
Proof.
  intros Hh combinedOutput.
  assert (Hlines : outputLines combinedOutput = split body LF).
  { apply (outputLines_framed header body "" Hh). done. }
  assert (Hparse : parseCombinedOutput combinedOutput branches
                   = reported (split body LF) branches).
  { by rewrite parseCombinedOutput_lines, Hlines. }
  split_and!; [done| |].
  - rewrite Hparse. unfold reported.
    intros branch [_ Hb]%list_elem_of_In%filter_In.
    destruct (foldl_recordLine_last _ ∅ _ Hb)
      as (before & line & after & Heq & Hr & Hafter & Hm).
    destruct (reportsUpdate_target _ _ Hr) as [to Hto].
    exists before, line, after, to.
    unfold updatedBranches. rewrite Hlines, Hm, Hto. done.
  - rewrite parseCombinedOutput_lines.
    unfold outputLines, LF in *.
    rewrite split_app, (split_without_separator _ header Hh).
    apply reported_no_lines.
Qed.

Lemma fastForward_updated_subset_witness :
  let body :=
    "  1111111..2222222  refs/heads/main  main" +:+ LF +:+
    " = [up to date]      refs/heads/dev  dev" +:+ LF +:+
    "  2222222..6666666  refs/heads/main  main" in
  let combinedOutput := "From ." +:+ LF +:+ body +:+ LF in
  parseCombinedOutput combinedOutput [ dev; main ]
    = reported (split body LF) [ dev; main ] ∧
  (∀ branch, branch ∈ parseCombinedOutput combinedOutput [ dev; main ] →
     ∃ before line after to,
       split body LF = before ++ line :: after ∧
       reportsUpdate (Branch.name branch) line = true ∧
       existsb (reportsUpdate (Branch.name branch)) after = false ∧
       targetOf line = Some to ∧
       updatedBranches combinedOutput !! Branch.name branch
         = Some (Some to)) ∧
  parseCombinedOutput ("From ." +:+ LF) [ dev; main ] = [].
Proof.
  exact (fastForward_updated_subset "From ."
           ("  1111111..2222222  refs/heads/main  main" +:+ LF +:+
            " = [up to date]      refs/heads/dev  dev" +:+ LF +:+
            "  2222222..6666666  refs/heads/main  main")
           [ dev; main ] eq_refl).
Defined.

Import MoreExamples.

(** Against C2 as it is worded.  The value returned holds no target: two
    outputs that move [main] to different targets give the same value,
    the branch as it was requested, and the targets are in the map only.
    And the tokens are cut at spaces, not at any white space: on a line
    whose tokens are separated by tabulations, [main] is the last token
    delimited by white space and the first one contains [..], yet [main]
    is not returned. *)
Lemma parseCombinedOutput_returns_no_target :
  parseCombinedOutput plainOutput [ main; dev ] = [ main ] ∧
  parseCombinedOutput otherTargetOutput [ main; dev ] = [ main ] ∧
  updatedBranches plainOutput !! "main" = Some (Some "2222222") ∧
  updatedBranches otherTargetOutput !! "main" = Some (Some "9999999") ∧
  updatedSubset tabbedOutput [ main; dev ] = [ main ] ∧
  parseCombinedOutput tabbedOutput [ main; dev ] = [].
Proof. split_and!; vm_compute; reflexivity. Qed.

End ParserFacts.
